(** * application.js: the self-profiling entry point

    A shallow embedding of the supervisor script (the promise that guards the
    in-process [require('./server.js')]) together with the part of the Node
    runtime it talks to: child processes as event emitters, the glob and
    [fs.stat] callbacks, the timer armed by [setTimeout], and the microtask
    that runs a promise reaction at the end of the current turn.

    The script is event driven.  One turn of the event loop is modelled by
    [handle]; a run is a list of time-stamped events chosen by the
    environment.  Everything the script does that can be observed from the
    outside is appended to a trace. *)

From Stdlib Require Import ZArith List String Bool Lia.
From Stdlib Require Import DecimalString Permutation QArith.
Import ListNotations.
Local Open Scope string_scope.
Local Open Scope list_scope.
Local Open Scope Z_scope.

(** ** Values *)

(** What a rejected promise carries to [.catch]. *)
Inductive error :=
| GlobError (msg : string)     (* [err] handed to glob's callback *)
| StatError (msg : string)     (* [err] handed to fs.stat's callback *)
| TypeError (msg : string)     (* thrown by reading [.path] of [undefined] *)
| ChildError (arg : string).   (* argument of the event wired to [reject] *)

(** [fs.Stats]; only the field the script reads.  [mtime] is a Date, used
    through its time value (integer milliseconds). *)
Record Stats := { mtime : Z }.

(** The object literal [{ path, stat }]. *)
Record entry := { path : string; stat : Stats }.

(** ** Array.prototype.sort

    The comparator of the script is consistent, and the sort of the runtime is
    stable, so the result is the unique stable arrangement; it is computed
    here by insertion. [comparefn a b <= 0] keeps [a] in front of [b]. *)
Section ArraySort.
Context {A : Type} (comparefn : A -> A -> Z).

Fixpoint sort_insert (x : A) (l : list A) : list A :=
  match l with
  | [] => [x]
  | y :: l' => if comparefn x y <=? 0 then x :: l else y :: sort_insert x l'
  end.

Definition Array_sort (l : list A) : list A := fold_right sort_insert [] l.
End ArraySort.

(** [(a, b) => b.stat.mtime - a.stat.mtime] *)
Definition by_mtime_desc (a b : entry) : Z := mtime (stat b) - mtime (stat a).

(** The last [.then] of [findLatestProfile]:
    [paths.sort((a, b) => b.stat.mtime - a.stat.mtime)[0].path].
    On an empty array [[0]] is [undefined] and reading [.path] throws. *)
Definition latest (paths : list entry) : error + string :=
  match Array_sort by_mtime_desc paths with
  | [] => inl (TypeError "Cannot read property 'path' of undefined")
  | e :: _ => inr (path e)
  end.

(** ** The runtime objects the script touches *)

(** The event emitters: the two child processes and their output streams. *)
Inductive emitter :=
| Server | ServerStdout | ServerStderr
| Profile | ProfileStdout | ProfileStderr.

Definition emitter_eqb (a b : emitter) : bool :=
  match a, b with
  | Server, Server | ServerStdout, ServerStdout | ServerStderr, ServerStderr
  | Profile, Profile | ProfileStdout, ProfileStdout
  | ProfileStderr, ProfileStderr => true
  | _, _ => false
  end.

(** The closures the script registers as listeners, one name each. *)
Inductive handler :=
| pipe_to_stdout     (* server.stdout.pipe(process.stdout) *)
| pipe_to_stderr     (* server.stderr.pipe(process.stderr) *)
| server_close       (* server.on('close', (code, signal) => ...) *)
| output_append      (* profile.stdout.on('data', (chunk) => output += chunk) *)
| profile_reject     (* profile.on('err', reject) *)
| profile_resolve.   (* profile.on('close', () => resolve(output)) *)

(** The reaction attached to the outer promise, and the timer callback. *)
Inductive reaction := then_require_server.   (* () => require('./server.js') *)
Inductive timer_cb := kill_server.           (* () => server.kill('SIGINT') *)

(** What the environment can deliver to the event loop. The text of a data
    chunk, or of an error, is the event's argument. *)
Inductive event :=
| Emit (em : emitter) (name arg : string)
| GlobCallback (r : string + list string)      (* (err, paths) *)
| StatCallback (i : nat) (r : string + Stats). (* (err, stat) of the i-th call *)

(** What the script is seen to do. *)
Inductive action :=
| Log (args : list string)                    (* console.log(...args) *)
| Warn (msg : string) (err : error)           (* console.warn(msg, err) *)
| Stdout (chunk : string)                     (* piped to process.stdout *)
| Stderr (chunk : string)                     (* piped to process.stderr *)
| Spawn (command : string) (args : list string)
| Kill (signal : string)                      (* server.kill(signal) *)
| Glob (pattern : string)
| FsStat (p : string)
| Require (module : string)
| Resolve                                     (* the outer promise's resolve() *)
| Emitted (em : emitter) (name arg : string)  (* an event reaches its emitter *)
| Uncaught (em : emitter) (arg : string).     (* 'error' event with no listener *)

Inductive child := NotSpawned | Running | Closed.
Inductive promise := Pending | Fulfilled | Rejected.

(** Where the promise chain started by the close handler stands. *)
Inductive phase :=
| Idle                                          (* handler not run yet *)
| Globbing                                      (* glob callback pending *)
| Statting (rs : list (string * option Stats))  (* Promise.all pending *)
| PostProcessing                                (* inner promise pending *)
| Done                                          (* report logged *)
| Failed.                                       (* .catch has run *)

Record state := mkState {
  clock : Z;                                    (* milliseconds since start *)
  crashed : bool;                               (* died of an uncaught exception *)
  outer : promise;                              (* the entry point's promise *)
  reactions : list reaction;                    (* its pending then-callbacks *)
  microtasks : list reaction;                   (* jobs for the end of the turn *)
  server : child;
  profile : child;
  listeners : list (emitter * string * handler);
  timers : list (Z * timer_cb);                 (* deadline, callback *)
  chain : phase;
  output : string;                              (* let output = '' *)
  trace : list (Z * action)
}.

Definition set_clock (v : Z) (s : state) : state :=
  mkState v (crashed s) (outer s) (reactions s) (microtasks s) (server s)
    (profile s) (listeners s) (timers s) (chain s) (output s) (trace s).
Definition set_crashed (v : bool) (s : state) : state :=
  mkState (clock s) v (outer s) (reactions s) (microtasks s) (server s)
    (profile s) (listeners s) (timers s) (chain s) (output s) (trace s).
Definition set_outer (v : promise) (s : state) : state :=
  mkState (clock s) (crashed s) v (reactions s) (microtasks s) (server s)
    (profile s) (listeners s) (timers s) (chain s) (output s) (trace s).
Definition set_reactions (v : list reaction) (s : state) : state :=
  mkState (clock s) (crashed s) (outer s) v (microtasks s) (server s)
    (profile s) (listeners s) (timers s) (chain s) (output s) (trace s).
Definition set_microtasks (v : list reaction) (s : state) : state :=
  mkState (clock s) (crashed s) (outer s) (reactions s) v (server s)
    (profile s) (listeners s) (timers s) (chain s) (output s) (trace s).
Definition set_server (v : child) (s : state) : state :=
  mkState (clock s) (crashed s) (outer s) (reactions s) (microtasks s) v
    (profile s) (listeners s) (timers s) (chain s) (output s) (trace s).
Definition set_profile (v : child) (s : state) : state :=
  mkState (clock s) (crashed s) (outer s) (reactions s) (microtasks s)
    (server s) v (listeners s) (timers s) (chain s) (output s) (trace s).
Definition set_listeners (v : list (emitter * string * handler)) (s : state)
  : state :=
  mkState (clock s) (crashed s) (outer s) (reactions s) (microtasks s)
    (server s) (profile s) v (timers s) (chain s) (output s) (trace s).
Definition set_timers (v : list (Z * timer_cb)) (s : state) : state :=
  mkState (clock s) (crashed s) (outer s) (reactions s) (microtasks s)
    (server s) (profile s) (listeners s) v (chain s) (output s) (trace s).
Definition set_chain (v : phase) (s : state) : state :=
  mkState (clock s) (crashed s) (outer s) (reactions s) (microtasks s)
    (server s) (profile s) (listeners s) (timers s) v (output s) (trace s).
Definition set_output (v : string) (s : state) : state :=
  mkState (clock s) (crashed s) (outer s) (reactions s) (microtasks s)
    (server s) (profile s) (listeners s) (timers s) (chain s) v (trace s).
Definition set_trace (v : list (Z * action)) (s : state) : state :=
  mkState (clock s) (crashed s) (outer s) (reactions s) (microtasks s)
    (server s) (profile s) (listeners s) (timers s) (chain s) (output s) v.

(** The process as it starts: nothing spawned, the promise not created. *)
Definition initial : state :=
  mkState 0 false Pending [] [] NotSpawned NotSpawned [] [] Idle "" [].

(** The actions of a run, without their time stamps. *)
Definition acts (s : state) : list action := map snd (trace s).

Definition act (a : action) (s : state) : state :=
  set_trace (trace s ++ [(clock s, a)]) s.

(** [emitter.on(name, h)] *)
Definition on (em : emitter) (name : string) (h : handler) (s : state) : state :=
  set_listeners (listeners s ++ [(em, name, h)]) s.

(** ** Promises, microtasks and timers *)

(** [resolve()] of the outer promise: the first call fulfils it and queues its
    reactions as microtasks; later calls do nothing. *)
Definition resolve_outer (s : state) : state :=
  let s := act Resolve s in
  match outer s with
  | Pending =>
      set_microtasks (microtasks s ++ reactions s)
        (set_reactions [] (set_outer Fulfilled s))
  | _ => s
  end.

(** [.then(r)] on the outer promise. *)
Definition outer_then (r : reaction) (s : state) : state :=
  match outer s with
  | Pending => set_reactions (reactions s ++ [r]) s
  | Fulfilled => set_microtasks (microtasks s ++ [r]) s
  | Rejected => s
  end.

Definition run_reaction (r : reaction) (s : state) : state :=
  match r with
  | then_require_server => act (Require "./server.js") s
  end.

(** The microtask queue is emptied at the end of every turn. *)
Definition drain (s : state) : state :=
  fold_left (fun s r => run_reaction r s) (microtasks s) (set_microtasks [] s).

(** Node's timers: a delay that is not a number between 1 and 2^31 - 1 is
    replaced by 1. [None] stands for NaN. *)
Definition TIMEOUT_MAX : Z := 2 ^ 31 - 1.

Definition timer_delay (after : option Z) : Z :=
  match after with
  | Some n => if (1 <=? n) && (n <=? TIMEOUT_MAX) then n else 1
  | None => 1
  end.

Definition setTimeout (cb : timer_cb) (after : option Z) (s : state) : state :=
  set_timers (timers s ++ [(clock s + timer_delay after, cb)]) s.

Definition run_timer (cb : timer_cb) (s : state) : state :=
  match cb with
  | kill_server => act (Kill "SIGINT") s
  end.

(** Time passes until [t]: every timer due by then fires, at its deadline. *)
Definition advance (t : Z) (s : state) : state :=
  if crashed s then s else
  let due := filter (fun d => fst d <=? t) (timers s) in
  let later := filter (fun d => negb (fst d <=? t)) (timers s) in
  let s :=
    fold_left
      (fun s d => run_timer (snd d) (set_clock (Z.max (clock s) (fst d)) s))
      due (set_timers later s) in
  set_clock (Z.max (clock s) t) s.

(** ** The profile chain: findLatestProfile and what follows it *)

(** [.catch((err) => console.warn('Error processing profile', err))]; a
    rejection skips every [.then] before it. *)
Definition catch_error (e : error) (s : state) : state :=
  set_chain Failed (act (Warn "Error processing profile" e) s).

(** The executor of the inner promise: spawn the post-processor and wire its
    events. *)
Definition process_profile (p : string) (s : state) : state :=
  let s := act (Log ["Processing profile..."; p]) s in
  let s := act (Spawn "node" ["--prof-process"; p]) s in
  let s := set_profile Running s in
  let s := set_output "" s in
  let s := on ProfileStdout "data" output_append s in
  let s := on Profile "err" profile_reject s in
  let s := on Profile "close" profile_resolve s in
  set_chain PostProcessing s.

(** [.then((profile) => ...)]: the bracketed report. *)
Definition print_report (report : string) (s : state) : state :=
  let s := act (Log ["===Profile Output Start============"]) s in
  let s := act (Log [report]) s in
  let s := act (Log ["===Profile Output End============"]) s in
  set_chain Done s.

(** Once every stat has answered: pick the newest and go on. *)
Definition stats_ready (paths : list entry) (s : state) : state :=
  match latest paths with
  | inl e => catch_error e s
  | inr p => process_profile p s
  end.

(** Promise.all: fulfilled, in call order, when no promise is pending. *)
Fixpoint all_fulfilled (rs : list (string * option Stats))
  : option (list entry) :=
  match rs with
  | [] => Some []
  | (p, Some st) :: rs' =>
      match all_fulfilled rs' with
      | Some es => Some ({| path := p; stat := st |} :: es)
      | None => None
      end
  | (_, None) :: _ => None
  end.

Fixpoint set_nth {A : Type} (i : nat) (x : A) (l : list A) : list A :=
  match l, i with
  | [], _ => []
  | _ :: l', O => x :: l'
  | y :: l', S i' => y :: set_nth i' x l'
  end.

Definition await_stats (rs : list (string * option Stats)) (s : state)
  : state :=
  match all_fulfilled rs with
  | Some es => stats_ready es s
  | None => set_chain (Statting rs) s
  end.

(** glob's callback, and the [.then] that stats every path. *)
Definition glob_callback (r : string + list string) (s : state) : state :=
  match r with
  | inl msg => catch_error (GlobError msg) s
  | inr paths =>
      let s := fold_left (fun s p => act (FsStat p) s) paths s in
      await_stats (map (fun p => (p, None)) paths) s
  end.

(** fs.stat's callback for the [i]-th path. *)
Definition stat_callback (i : nat) (r : string + Stats)
    (rs : list (string * option Stats)) (s : state) : state :=
  match nth_error rs i with
  | Some (p, None) =>
      match r with
      | inl msg => catch_error (StatError msg) s
      | inr st => await_stats (set_nth i (p, Some st) rs) s
      end
  | _ => s
  end.

(** ** Listeners

    The argument of a 'data' event is the text of the chunk: [output += chunk]
    appends the chunk converted to a string. *)

Definition call (h : handler) (arg : string) (s : state) : state :=
  match h with
  | pipe_to_stdout => act (Stdout arg) s
  | pipe_to_stderr => act (Stderr arg) s
  | server_close =>
      let s := act (Log ["Restarting server without profiling now"]) s in
      let s := resolve_outer s in
      let s := act (Log ["Finding latest profile..."]) s in
      let s := act (Glob "isolate-*") s in
      set_chain Globbing s
  | output_append => set_output (output s ++ arg)%string s
  | profile_reject =>
      match chain s with
      | PostProcessing => catch_error (ChildError arg) s
      | _ => s
      end
  | profile_resolve =>
      match chain s with
      | PostProcessing => print_report (output s) s
      | _ => s
      end
  end.

Definition registered (em : emitter) (name : string)
    (r : emitter * string * handler) : bool :=
  emitter_eqb (fst (fst r)) em && (snd (fst r) =? name)%string.

Definition handlers (em : emitter) (name : string)
    (l : list (emitter * string * handler)) : list handler :=
  map snd (filter (registered em name) l).

(** [emitter.emit(name, arg)]: the listeners run in registration order; an
    'error' event nobody listens to is thrown and kills the process. *)
Definition emit (em : emitter) (name arg : string) (s : state) : state :=
  let s := act (Emitted em name arg) s in
  match handlers em name (listeners s) with
  | [] =>
      if (name =? "error")%string
      then set_crashed true (act (Uncaught em arg) s)
      else s
  | hs => fold_left (fun s h => call h arg s) hs s
  end.

(** 'close' is the last event of a child process. *)
Definition closes (em : emitter) (name : string) (s : state) : state :=
  if (name =? "close")%string then
    match em with
    | Server => set_server Closed s
    | Profile => set_profile Closed s
    | _ => s
    end
  else s.

Definition owner (em : emitter) (s : state) : child :=
  match em with
  | Server | ServerStdout | ServerStderr => server s
  | Profile | ProfileStdout | ProfileStderr => profile s
  end.

(** ** The event loop *)

(** One macrotask. Events that cannot occur are dropped: an event of a child
    that is not running, a callback nobody is waiting for. *)
Definition turn (ev : event) (s : state) : state :=
  match ev with
  | Emit em name arg =>
      match owner em s with
      | Running => closes em name (emit em name arg s)
      | _ => s
      end
  | GlobCallback r =>
      match chain s with
      | Globbing => glob_callback r s
      | _ => s
      end
  | StatCallback i r =>
      match chain s with
      | Statting rs => stat_callback i r rs s
      | _ => s
      end
  end.

Definition handle (ev : event) (s : state) : state :=
  if crashed s then s else drain (turn ev s).

Definition deliver (s : state) (te : Z * event) : state :=
  handle (snd te) (advance (fst te) s).

(** The events of a schedule are delivered in order; [run_until] lets the
    clock reach [T] afterwards. *)
Definition run (evs : list (Z * event)) (s : state) : state :=
  fold_left deliver evs s.

Definition run_until (T : Z) (evs : list (Z * event)) (s : state) : state :=
  advance T (run evs s).

(** ** application.js *)

(** JavaScript truthiness of [process.env.X]: undefined and '' are falsy. *)
Definition truthy (v : option string) : bool :=
  match v with
  | None => false
  | Some v => negb (v =? "")%string
  end.

Definition text (v : option string) : string :=
  match v with
  | None => "undefined"
  | Some v => v
  end.

Section Entrypoint.
(** ToNumber on the text of an environment variable, which is what
    [setTimeout] applies to its delay: [None] is NaN, and a count of
    milliseconds is an integer. *)
Variable ToNumber : string -> option Z.

Definition number (v : option string) : option Z :=
  match v with
  | None => None
  | Some v => ToNumber v
  end.

(** The executor of the outer promise. *)
Definition executor (DEBUG_PROFILE_TIME : option string) (s : state)
  : state :=
  if negb (truthy DEBUG_PROFILE_TIME) then resolve_outer s else
  let s :=
    act (Log [("Profiling application for " ++ text DEBUG_PROFILE_TIME
               ++ " ms...")%string]) s in
  let s := act (Spawn "node" ["--prof"; "server.js"]) s in
  let s := set_server Running s in
  let s := on ServerStdout "data" pipe_to_stdout s in
  let s := on ServerStderr "data" pipe_to_stderr s in
  let s := on Server "close" server_close s in
  setTimeout kill_server (number DEBUG_PROFILE_TIME) s.

(** [new Promise(executor).then(() => require('./server.js'))], up to the
    end of the first turn. *)
Definition application (DEBUG_PROFILE_TIME : option string) : state :=
  drain (outer_then then_require_server (executor DEBUG_PROFILE_TIME initial)).
End Entrypoint.

(** ToNumber on unsigned decimal literals, the way a millisecond count is
    written. *)
Definition ToNumber_decimal (v : string) : option Z :=
  match NilEmpty.uint_of_string v with
  | Some d => Some (Z.of_N (N.of_uint d))
  | None => None
  end.

(** ** Reading a trace *)

Definition is_server_close (a : action) : bool :=
  match a with
  | Emitted Server name _ => (name =? "close")%string
  | _ => false
  end.

Definition is_service_load (a : action) : bool :=
  match a with
  | Require m => (m =? "./server.js")%string
  | _ => false
  end.

Definition is_spawn (a : action) : bool :=
  match a with
  | Spawn _ _ => true
  | _ => false
  end.

(** [spawn('node', ['--prof-process', path])] *)
Definition is_postprocessor_spawn (a : action) : bool :=
  match a with
  | Spawn cmd (flag :: _) =>
      (cmd =? "node")%string && (flag =? "--prof-process")%string
  | _ => false
  end.

Definition is_report (a : action) : bool :=
  match a with
  | Log [line] => (line =? "===Profile Output Start============")%string
  | _ => false
  end.

Definition is_warn (a : action) : bool :=
  match a with
  | Warn _ _ => true
  | _ => false
  end.

Definition is_kill (a : action) : bool :=
  match a with
  | Kill _ => true
  | _ => false
  end.

Definition is_resolve (a : action) : bool :=
  match a with
  | Resolve => true
  | _ => false
  end.

Definition is_uncaught (a : action) : bool :=
  match a with
  | Uncaught _ _ => true
  | _ => false
  end.

(** The data chunks the post-processor's standard output has emitted. *)
Definition stdout_chunk (a : action) : list string :=
  match a with
  | Emitted ProfileStdout name arg =>
      if (name =? "data")%string then [arg] else []
  | _ => []
  end.

Definition stdout_chunks (tr : list action) : list string :=
  flat_map stdout_chunk tr.

Definition stderr_chunk (a : action) : list string :=
  match a with
  | Emitted ProfileStderr name arg =>
      if (name =? "data")%string then [arg] else []
  | _ => []
  end.

Definition stderr_chunks (tr : list action) : list string :=
  flat_map stderr_chunk tr.

Definition has (P : action -> bool) (s : state) : bool := existsb P (acts s).

Definition count (P : action -> bool) (s : state) : nat :=
  List.length (filter P (acts s)).

(** Every action satisfying [Q] comes strictly after one satisfying [P]. *)
Definition precedes (P Q : action -> bool) (tr : list action) : Prop :=
  forall l1 b l2, tr = l1 ++ b :: l2 -> Q b = true -> existsb P l1 = true.

(** The same, decided by one pass over the trace. *)
Fixpoint ordered (P Q : action -> bool) (seen : bool) (tr : list action)
  : bool :=
  match tr with
  | [] => true
  | a :: tr' => (seen || negb (Q a)) && ordered P Q (seen || P a) tr'
  end.

(** The three lines that bracket a report. *)
Definition report_block (arg report : string) : list action :=
  [Emitted Profile "close" arg;
   Log ["===Profile Output Start============"];
   Log [report];
   Log ["===Profile Output End============"]].

(** The listener tables the script builds. *)
Definition server_listeners : list (emitter * string * handler) :=
  [(ServerStdout, "data", pipe_to_stdout);
   (ServerStderr, "data", pipe_to_stderr);
   (Server, "close", server_close)].

Definition profile_listeners : list (emitter * string * handler) :=
  [(ProfileStdout, "data", output_append);
   (Profile, "err", profile_reject);
   (Profile, "close", profile_resolve)].

(** The text of a list of chunks: what repeated [+=] builds from ''. *)
Definition join (chunks : list string) : string :=
  fold_right String.append "" chunks.

(** ** The invariant of a profiling session *)

Definition trace_order (tr : list action) : Prop :=
  ordered is_server_close is_service_load false tr = true /\
  ordered is_server_close is_postprocessor_spawn false tr = true /\
  ordered is_service_load is_postprocessor_spawn false tr = true /\
  ordered is_service_load is_report false tr = true /\
  ordered is_service_load is_warn false tr = true.

(** The close handler has run. *)
Definition after_close (s : state) : Prop :=
  server s = Closed /\ outer s = Fulfilled /\ reactions s = [] /\
  has is_server_close s = true /\ has is_service_load s = true /\
  count is_resolve s = 1%nat.

(** The trace holds a report block whose body is the text of every chunk the
    post-processor's standard output emitted. *)
Definition reported (tr : list action) : Prop :=
  exists tr1 arg tr2,
    tr = tr1 ++ report_block arg (join (stdout_chunks tr1)) ++ tr2 /\
    stdout_chunks tr2 = [].

Definition session_inv (s : state) : Prop :=
  microtasks s = [] /\
  listeners s =
    server_listeners ++
    match profile s with
    | NotSpawned => []
    | _ => profile_listeners
    end /\
  trace_order (acts s) /\
  match profile s with
  | NotSpawned =>
      has is_postprocessor_spawn s = false /\ stdout_chunks (acts s) = []
  | Running => output s = join (stdout_chunks (acts s))
  | Closed => True
  end /\
  match chain s with
  | Idle =>
      server s = Running /\ profile s = NotSpawned /\ outer s = Pending /\
      reactions s = [then_require_server] /\
      has is_server_close s = false /\ has is_service_load s = false /\
      count is_resolve s = 0%nat /\
      has is_warn s = false /\ has is_report s = false
  | Globbing | Statting _ =>
      after_close s /\ profile s = NotSpawned /\ crashed s = false /\
      has is_warn s = false /\ has is_report s = false
  | PostProcessing =>
      after_close s /\ profile s = Running /\
      has is_warn s = false /\ has is_report s = false
  | Done =>
      after_close s /\ profile s = Closed /\
      has is_warn s = false /\ reported (acts s)
  | Failed =>
      after_close s /\ has is_warn s = true /\ has is_report s = false
  end.

(** ** What a turn may touch *)

(** The kill requests of a run, with the time each was issued at. *)
Definition kills (tr : list (Z * action)) : list (Z * action) :=
  filter (fun e => is_kill (snd e)) tr.

(** [s'] comes from [s] by code that leaves the clock and the timers alone and
    issues no kill: the trace grows by actions other than kills. *)
Definition extends (s s' : state) : Prop :=
  clock s' = clock s /\ timers s' = timers s /\
  exists new, trace s' = trace s ++ new /\ kills new = [].

(** The one timer of the script is either pending or has fired at its
    deadline [d]. *)
Definition timer_inv (d : Z) (s : state) : Prop :=
  (timers s = [(d, kill_server)] /\ clock s < d /\ kills (trace s) = []) \/
  (timers s = [] /\ kills (trace s) = [(d, Kill "SIGINT")]).

(** Nothing was spawned and nothing is scheduled. *)
Definition inert (s : state) : Prop :=
  server s = NotSpawned /\ profile s = NotSpawned /\ chain s = Idle /\
  timers s = [] /\ microtasks s = [].

(** The session failed before a post-processor was spawned, and said so. *)
Definition failed_locating (w : action) (s : state) : Prop :=
  chain s = Failed /\ crashed s = false /\ profile s = NotSpawned /\
  server s = Closed /\ microtasks s = [] /\ In w (acts s).

(** ** Sessions *)

(** The process started with the given value of DEBUG_PROFILE_TIME, fed a
    schedule of events, observed at time [T]. *)
Definition session (ToNumber : string -> option Z) (env : option string)
    (evs : list (Z * event)) (T : Z) : state :=
  run_until T evs (application ToNumber env).

(** The profiled child closes 105 ms after the start. *)
Definition child_closes : list (Z * event) :=
  [(105, Emit Server "close" "")].

(** ... glob then finds one artifact and its stat arrives. *)
Definition artifact_found : list (Z * event) :=
  child_closes ++
  [(106, GlobCallback (inr ["isolate-1.log"]));
   (107, StatCallback 0 (inr {| mtime := 5 |}))].

(** ... the post-processor writes three chunks and closes. *)
Definition report_written : list (Z * event) :=
  artifact_found ++
  [(108, Emit ProfileStdout "data" "AB");
   (109, Emit ProfileStdout "data" "CD");
   (110, Emit ProfileStdout "data" "EF");
   (111, Emit Profile "close" "")].

(** ... or the post-processor cannot be launched: Node reports that with an
    'error' event on the child. *)
Definition spawn_fails : list (Z * event) :=
  artifact_found ++ [(108, Emit Profile "error" "spawn node EAGAIN")].

(** ... or it writes to both of its output streams. *)
Definition both_streams : list (Z * event) :=
  artifact_found ++
  [(108, Emit ProfileStdout "data" "AB");
   (109, Emit ProfileStderr "data" "zz");
   (110, Emit Profile "close" "")].

(** A data chunk of the post-processor's standard output, as an event. *)
Definition chunk_event (tc : Z * string) : Z * event :=
  (fst tc, Emit ProfileStdout "data" (snd tc)).

(** Three stat-ed candidates. *)
Definition candidates : list entry :=
  [{| path := "A"; stat := {| mtime := 10 |} |};
   {| path := "B"; stat := {| mtime := 30 |} |};
   {| path := "C"; stat := {| mtime := 20 |} |}].

(** ** Readings of the specification that the script does not meet *)

(** The service is loaded only once the session has reached Done or
    Failed. *)
Definition loads_after_session (s : state) : Prop :=
  has is_service_load s = true -> chain s = Done \/ chain s = Failed.

(** A chunk arriving on [em] is appended to the report buffer. *)
Definition chunk_captured (em : emitter) (c : string) (s : state) : Prop :=
  output (handle (Emit em "data" c) s) = (output s ++ c)%string.

(** No kill request is issued before [N] milliseconds have passed. *)
Definition issued_after (N : Z) (s : state) : Prop :=
  forall t a, In (t, a) (kills (trace s)) -> N <= t.

(** ** When the executor throws *)

(** How the first turn goes: every statement of the executor goes through, or
    one of the two that can throw does: [require('glob')], when the module
    cannot be found, and [spawn], when no process can be created at all. *)
Inductive startup := Healthy | RequireThrows | SpawnThrows.

(** An exception thrown inside the executor rejects the promise, unless it is
    settled already. The promise returned by [.then] has no rejection
    handler: its callback is dropped. *)
Definition reject_outer (s : state) : state :=
  match outer s with
  | Pending => set_reactions [] (set_outer Rejected s)
  | _ => s
  end.

Section Startup.
Variable ToNumber : string -> option Z.

(** The executor of the outer promise, statement by statement, with the
    places it can throw at. The guard returns before any of them. *)
Definition executor_at (w : startup) (DEBUG_PROFILE_TIME : option string)
    (s : state) : state :=
  if negb (truthy DEBUG_PROFILE_TIME) then resolve_outer s else
  let s :=
    act (Log [("Profiling application for " ++ text DEBUG_PROFILE_TIME
               ++ " ms...")%string]) s in
  match w with
  | RequireThrows => reject_outer s      (* const glob = require('glob') *)
  | SpawnThrows => reject_outer s        (* const server = spawn(...) *)
  | Healthy =>
      let s := act (Spawn "node" ["--prof"; "server.js"]) s in
      let s := set_server Running s in
      let s := on ServerStdout "data" pipe_to_stdout s in
      let s := on ServerStderr "data" pipe_to_stderr s in
      let s := on Server "close" server_close s in
      setTimeout kill_server (number ToNumber DEBUG_PROFILE_TIME) s
  end.

Definition application_at (w : startup) (DEBUG_PROFILE_TIME : option string)
  : state :=
  drain
    (outer_then then_require_server
       (executor_at w DEBUG_PROFILE_TIME initial)).

Definition session_at (w : startup) (env : option string)
    (evs : list (Z * event)) (T : Z) : state :=
  run_until T evs (application_at w env).
End Startup.

(** The reading of the specification: the promise is never rejected and
    resolve has been called exactly once. *)
Definition settled_by_one_resolve (s : state) : Prop :=
  outer s <> Rejected /\ count is_resolve s = 1%nat.

(** The profiled child cannot be started ([node] is not on the path): Node
    reports it by an 'error' event on the child, in a later turn. *)
Definition server_spawn_fails : list (Z * event) :=
  [(1, Emit Server "error" "spawn node ENOENT")].

(** ** More ways to read a trace *)

(** What the two pipes have written to the supervisor's own streams. *)
Definition piped_stdout (a : action) : list string :=
  match a with
  | Stdout c => [c]
  | _ => []
  end.

Definition piped_stderr (a : action) : list string :=
  match a with
  | Stderr c => [c]
  | _ => []
  end.

(** The data chunks an emitter has emitted. *)
Definition data_chunk (em : emitter) (a : action) : list string :=
  match a with
  | Emitted em' name arg =>
      if emitter_eqb em' em && (name =? "data")%string then [arg] else []
  | _ => []
  end.

(** [spawn('node', ['--prof', 'server.js'])] *)
Definition is_server_spawn (a : action) : bool :=
  match a with
  | Spawn cmd [flag; file] =>
      (cmd =? "node")%string && (flag =? "--prof")%string &&
      (file =? "server.js")%string
  | _ => false
  end.

(** How often each step of a session has been taken, read off the children
    and the chain; and the pipes have written what the profiled child has
    emitted. *)
Definition session_counts (s : state) : Prop :=
  flat_map piped_stdout (acts s) = flat_map (data_chunk ServerStdout) (acts s) /\
  flat_map piped_stderr (acts s) = flat_map (data_chunk ServerStderr) (acts s) /\
  count is_server_spawn s = 1%nat /\
  count is_postprocessor_spawn s =
    match profile s with
    | NotSpawned => 0%nat
    | _ => 1%nat
    end /\
  count is_spawn s =
    match profile s with
    | NotSpawned => 1%nat
    | _ => 2%nat
    end /\
  count is_service_load s =
    match chain s with
    | Idle => 0%nat
    | _ => 1%nat
    end /\
  count is_warn s =
    match chain s with
    | Failed => 1%nat
    | _ => 0%nat
    end.


(** The profiled child writes to both streams, then closes. *)
Definition child_talks : list (Z * event) :=
  [(10, Emit ServerStdout "data" "listening");
   (20, Emit ServerStderr "data" "deprecated");
   (30, Emit ServerStdout "data" "GET /hello");
   (105, Emit Server "close" "")].

(** ** Promise.all over the stat calls *)

(** The entries Promise.all hands on: each path with its stat, in call
    order. *)
Definition entries (paths : list string) (stats : list Stats) : list entry :=
  map (fun ps => {| path := fst ps; stat := snd ps |}) (combine paths stats).

(** The answer of the stat call number [snd ti], arriving at time [fst ti]. *)
Definition stat_answer (stats : list Stats) (ti : Z * nat) : Z * event :=
  (fst ti,
   StatCallback (snd ti) (inr (nth (snd ti) stats {| mtime := 0 |}))).

(** [rs] is the table of Promise.all when exactly the calls numbered in [D]
    have answered. *)
Definition answered (paths : list string) (stats : list Stats)
    (D : list nat) (rs : list (string * option Stats)) : Prop :=
  List.length rs = List.length paths /\
  forall j, (j < List.length paths)%nat ->
    (In j D ->
     nth_error rs j = Some (nth j paths "", Some (nth j stats {| mtime := 0 |})))
    /\
    (~ In j D -> nth_error rs j = Some (nth j paths "", None)).

(** Two leftovers of earlier sessions and the artifact of this one. *)
Definition with_leftovers : list entry :=
  [{| path := "isolate-0x1-v8.log"; stat := {| mtime := 100 |} |};
   {| path := "isolate-0x3-v8.log"; stat := {| mtime := 900 |} |};
   {| path := "isolate-0x2-v8.log"; stat := {| mtime := 500 |} |}].

(** * lib/hello.js: the two handlers of the hello route *)

(** A value found in [req.query] or [req.body]: what the query parser builds
    (strings, arrays, objects) and what a JSON body can hold besides. *)
#[warnings="-register-all"] Inductive jsvalue :=
| JNull
| JBool (b : bool)
| JNum (n : Q)
| JStr (s : string)
| JArr (items : list jsvalue)
| JObj (fields : list (string * jsvalue)).

(** ToBoolean. *)
Definition ToBoolean (v : jsvalue) : bool :=
  match v with
  | JNull => false
  | JBool b => b
  | JNum n => negb (Qeq_bool n 0)
  | JStr s => negb (s =? "")%string
  | JArr _ | JObj _ => true
  end.

(** [o.k]: the property, or undefined ([None]). *)
Fixpoint property (k : string) (o : list (string * jsvalue))
  : option jsvalue :=
  match o with
  | [] => None
  | (k', v) :: o' => if (k' =? k)%string then Some v else property k o'
  end.

(** What a handler receives: [req.query] for GET, [req.body] for POST; [None]
    is undefined. *)
Record request := { params : option (list (string * jsvalue)) }.

(** The object handed to [res.json]. *)
Record reply := { msg : string; hash : string }.

(** A handler either reaches [res.json] or throws before it. *)
Inductive outcome :=
| Replied (r : reply)
| Threw (e : error).

(** [console.log(new Date(), label, req.query)]: the line a handler logs
    first. *)
Record log_line := {
  logged_at : Z;
  label : string;
  shown : option (list (string * jsvalue))
}.

(** How [hash] is declared: [let hash = ''] in the GET handler,
    [const hash = ''] in the POST handler. *)
Inductive declaration := Let | Const.

(** [hash += d]: an assignment to a [const] binding throws. *)
Definition add_assign (decl : declaration) (hash d : string)
  : error + string :=
  match decl with
  | Let => inr (hash ++ d)%string
  | Const => inl (TypeError "Assignment to constant variable.")
  end.

Section HelloRoute.
(** [crypto.createHmac(algorithm, key).update(data).digest('hex')], and
    Number.prototype.toString. *)
Variable createHmac : string -> string -> string -> string.
Variable Number_toString : Q -> string.

(** ToString, as [+] applies it to the right operand of ['Hello ' + world].
    An object is first turned into a primitive, by its [valueOf] and
    [toString] methods. The values of a parsed query or body hold no
    function: the inherited [valueOf] returns the object itself, which is no
    primitive, and the inherited [toString] gives "[object Object]", unless
    the object has a property [toString] of its own, which cannot be called,
    and then the conversion throws. An array joins its elements with commas,
    null standing for nothing, and throws when one of them does. *)
Fixpoint ToString (v : jsvalue) : error + string :=
  match v with
  | JNull => inr "null"
  | JBool true => inr "true"
  | JBool false => inr "false"
  | JNum n => inr (Number_toString n)
  | JStr s => inr s
  | JArr items =>
      match
        (fix elements (xs : list jsvalue) : error + list string :=
           match xs with
           | [] => inr []
           | x :: xs' =>
               match
                 match x with JNull => inr ""%string | _ => ToString x end
               with
               | inl e => inl e
               | inr t =>
                   match elements xs' with
                   | inl e => inl e
                   | inr ts => inr (t :: ts)
                   end
               end
           end) items
      with
      | inl e => inl e
      | inr ts => inr (String.concat "," ts)
      end
  | JObj fields =>
      match property "toString" fields with
      | Some _ => inl (TypeError "Cannot convert object to primitive value")
      | None => inr "[object Object]"
      end
  end.

(** [for (let i = 0; i < 1000; i++) hash += createHmac(...)...digest('hex')],
    with [n] iterations to go. *)
Fixpoint hash_loop (decl : declaration) (secret : string) (n : nat)
    (hash : string) : error + string :=
  match n with
  | O => inr hash
  | S n' =>
      match add_assign decl hash
              (createHmac "sha256" secret "I love cupcakes") with
      | inl e => inl e
      | inr hash' => hash_loop decl secret n' hash'
      end
  end.

(** [req.x && req.x.hello ? req.x.hello : 'World'] *)
Definition world_of (req : request) : jsvalue :=
  match params req with
  | None => JStr "World"
  | Some o =>
      match property "hello" o with
      | Some v => if ToBoolean v then v else JStr "World"
      | None => JStr "World"
      end
  end.

(** The body shared by the two handlers, up to the text of the log line and
    the declaration of [hash]; [now] is what [new Date()] returns. *)
Definition hello_handler (decl : declaration) (line : string) (now : Z)
    (req : request) : log_line * outcome :=
  let log := {| logged_at := now; label := line; shown := params req |} in
  let world := world_of req in
  let secret := "abcdefg" in
  match hash_loop decl secret 1000 "" with
  | inl e => (log, Threw e)
  | inr hash =>
      match ToString world with          (* 'Hello ' + world *)
      | inl e => (log, Threw e)
      | inr t =>
          (log, Replied {| msg := ("Hello " ++ t)%string; hash := hash |})
      end
  end.

(** [hello.get('/', function(req, res) {...})] *)
Definition hello_get (now : Z) (req : request) : log_line * outcome :=
  hello_handler Let "In hello route GET / req.query=" now req.

(** [hello.post('/', function(req, res) {...})] *)
Definition hello_post (now : Z) (req : request) : log_line * outcome :=
  hello_handler Const "In hello route POST / req.body=" now req.
End HelloRoute.

(** A stand-in digest of the right size, to run the handlers on. *)
Definition zero_digest (algorithm key data : string) : string :=
  join (repeat "0" 64).

Definition no_numbers (n : Q) : string := "".

(** * Properties *)

(** ** Traces *)

Lemma ordered_app (P Q : action -> bool) (seen : bool) (l l' : list action) :
  ordered P Q seen (l ++ l') =
  ordered P Q seen l && ordered P Q (seen || existsb P l) l'.
Proof.
  revert seen. induction l as [|a l IH]; intros seen; simpl.
  - now rewrite orb_false_r.
  - now rewrite IH, orb_assoc, andb_assoc.
Qed.

Lemma ordered_precedes (P Q : action -> bool) (tr : list action) :
  ordered P Q false tr = true -> precedes P Q tr.
Proof.
  intros H l1 b l2 -> Hb. rewrite ordered_app in H. simpl in H.
  rewrite Hb in H. simpl in H.
  destruct (existsb P l1); [reflexivity|].
  now rewrite andb_false_r in H.
Qed.

Lemma join_snoc (l : list string) (x : string) :
  join (l ++ [x]) = (join l ++ x)%string.
Proof.
  induction l as [|y l IH]; simpl.
  - induction x as [|c x IHx]; simpl; [reflexivity|now rewrite IHx].
  - rewrite IH. clear IH. induction y as [|c y IHy]; simpl; [reflexivity|].
    now rewrite IHy.
Qed.

Lemma stdout_chunks_app (l l' : list action) :
  stdout_chunks (l ++ l') = stdout_chunks l ++ stdout_chunks l'.
Proof. apply flat_map_app. Qed.

Lemma reported_app (tr new : list action) :
  reported tr -> stdout_chunks new = [] -> reported (tr ++ new).
Proof.
  intros (tr1 & arg & tr2 & -> & H2) Hn.
  exists tr1, arg, (tr2 ++ new). split.
  - now rewrite <- !app_assoc.
  - now rewrite stdout_chunks_app, H2, Hn.
Qed.

Lemma drain_idle (s : state) : microtasks s = [] -> drain s = s.
Proof. destruct s; simpl; intros ->; reflexivity. Qed.
(** ** Artifact selection *)

Lemma sort_insert_head (x : entry) (l : list entry) :
  exists tl,
    sort_insert by_mtime_desc x l =
    match l with
    | [] => x
    | y :: _ => if mtime (stat y) <=? mtime (stat x) then x else y
    end :: tl.
Proof.
  destruct l as [|y l']; simpl.
  - now exists [].
  - unfold by_mtime_desc at 1.
    destruct (Z.leb_spec (mtime (stat y) - mtime (stat x)) 0);
      destruct (Z.leb_spec (mtime (stat y)) (mtime (stat x))); try lia; eauto.
Qed.

(** The head of the sorted array is the first entry, in listing order, among
    those with the greatest modification time. *)
Lemma sort_head_first_max (l : list entry) :
  l <> [] ->
  exists before c after tl,
    l = before ++ c :: after /\
    Array_sort by_mtime_desc l = c :: tl /\
    (forall e, In e before -> mtime (stat e) < mtime (stat c)) /\
    (forall e, In e after -> mtime (stat e) <= mtime (stat c)).
Proof.
  induction l as [|x l IH]; [congruence|intros _].
  destruct l as [|y l'].
  - exists [], x, [], []. simpl. repeat split; intros e [].
  - destruct IH as (before & c & after & tl & Hl & Hs & Hb & Ha); [congruence|].
    change (Array_sort by_mtime_desc (x :: y :: l'))
      with (sort_insert by_mtime_desc x (Array_sort by_mtime_desc (y :: l'))).
    rewrite Hs, Hl.
    destruct (sort_insert_head x (c :: tl)) as [tl' Hh]. rewrite Hh.
    destruct (Z.leb_spec (mtime (stat c)) (mtime (stat x))).
    + exists [], x, (before ++ c :: after), tl'. repeat split.
      * intros e [].
      * intros e He. apply in_app_or in He as [He|[<-|He]].
        -- apply Hb in He. lia.
        -- lia.
        -- apply Ha in He. lia.
    + exists (x :: before), c, after, tl'. repeat split.
      * intros e [<-|He]; [lia|now apply Hb].
      * exact Ha.
Qed.

(** ** Stepping the script symbolically *)

Local Arguments String.eqb : simpl never.
Local Arguments join : simpl never.

Ltac eqb_lits :=
  repeat match goal with
  | |- context [String.eqb ?a ?b] =>
      let v := eval vm_compute in (String.eqb a b) in
      match v with true => idtac | false => idtac end;
      change (String.eqb a b) with v
  end.

Ltac crunch := repeat (progress (cbn -[String.eqb join]; eqb_lits)).

Ltac open_inv :=
  unfold session_inv, after_close, has, count, acts, trace_order, stdout_chunks.

Ltac step_script :=
  unfold drain, closes, emit, handlers, call, resolve_outer, catch_error,
    print_report, process_profile, on; crunch.

Ltac trace_facts :=
  rewrite ?map_app; cbn [map snd];
  rewrite ?ordered_app, ?existsb_app, ?flat_map_app, ?filter_app, ?length_app.

Ltac use_hyps :=
  repeat match goal with
  | H : _ /\ _ |- _ => destruct H
  end;
  repeat match goal with
  | H : _ = _ |- _ => rewrite H
  end.

Lemma reported_now (tr : list action) (arg : string) :
  reported
    ((((tr ++ [Emitted Profile "close" arg]) ++
       [Log ["===Profile Output Start============"]]) ++
      [Log [join (flat_map stdout_chunk tr)]]) ++
     [Log ["===Profile Output End============"]]).
Proof.
  exists tr, arg, []. rewrite <- !app_assoc. now split.
Qed.

Ltac settle :=
  open_inv; step_script; trace_facts; use_hyps; crunch; use_hyps; crunch;
  rewrite ?app_nil_r, ?join_snoc;
  repeat split;
  try reflexivity; try assumption; try apply reported_now.

(** The event names the script listens to, and 'error'. *)
Lemma name_cases (name : string) :
  name = "close" \/ name = "data" \/ name = "err" \/ name = "error" \/
  (("close" =? name)%string = false /\ ("data" =? name)%string = false /\
   ("err" =? name)%string = false /\ (name =? "error")%string = false /\
   (name =? "close")%string = false /\ (name =? "data")%string = false).
Proof.
  destruct (String.eqb_spec "close" name); [now left; subst|].
  destruct (String.eqb_spec "data" name); [now right; left; subst|].
  destruct (String.eqb_spec "err" name); [now right; right; left; subst|].
  destruct (String.eqb_spec name "error");
    [now right; right; right; left; subst|].
  repeat right. repeat split; auto; apply String.eqb_neq; congruence.
Qed.

(** ** The session invariant holds after every turn *)

Lemma session_inv_emit (em : emitter) (name arg : string) (s : state) :
  session_inv s -> crashed s = false ->
  session_inv (handle (Emit em name arg) s).
Proof.
  intros Hinv Hcr. unfold handle. rewrite Hcr.
  destruct s as [clk cr out re mt sv pf ls tm ch op tr].
  unfold session_inv, after_close, has, count, acts, trace_order,
    stdout_chunks in Hinv.
  cbn in Hinv, Hcr.
  destruct Hinv as (Hmt & Hls & Hord & Hpf & Hch). subst mt ls cr.
  destruct ch; decompose [and] Hch; clear Hch; subst;
    destruct em; try destruct pf; crunch; try discriminate;
    try (destruct (name_cases name)
           as [->|[->|[->|[->|(N1 & N2 & N3 & N4 & N5 & N6)]]]]);
    step_script; rewrite ?N1, ?N2, ?N3, ?N4, ?N5, ?N6; crunch;
    settle.
Qed.

(** The stat calls issued for the paths glob found add nothing the invariant
    looks at. *)
Lemma stat_calls (paths : list string) (s : state) :
  fold_left (fun s p => act (FsStat p) s) paths s =
  set_trace (trace s ++ map (fun p => (clock s, FsStat p)) paths) s.
Proof.
  revert s. induction paths as [|p paths IH]; intros s; simpl.
  - rewrite app_nil_r. now destruct s.
  - rewrite IH. destruct s. cbn. now rewrite <- app_assoc.
Qed.

Lemma stat_calls_acts (c : Z) (paths : list string) :
  map snd (map (fun p => (c, FsStat p)) paths) = map FsStat paths.
Proof. rewrite map_map. reflexivity. Qed.

Lemma stat_calls_ordered (P Q : action -> bool) (seen : bool)
    (paths : list string) :
  (forall p, Q (FsStat p) = false) ->
  ordered P Q seen (map FsStat paths) = true.
Proof.
  intros HQ. revert seen.
  induction paths as [|p paths IH]; intros seen; simpl; [reflexivity|].
  now rewrite HQ, IH, orb_true_r.
Qed.

Lemma stat_calls_existsb (P : action -> bool) (paths : list string) :
  (forall p, P (FsStat p) = false) -> existsb P (map FsStat paths) = false.
Proof.
  intros HP. induction paths as [|p paths IH]; simpl; [reflexivity|].
  now rewrite HP, IH.
Qed.

Lemma stat_calls_filter (P : action -> bool) (paths : list string) :
  (forall p, P (FsStat p) = false) -> filter P (map FsStat paths) = [].
Proof.
  intros HP. induction paths as [|p paths IH]; simpl; [reflexivity|].
  now rewrite HP, IH.
Qed.

Lemma stat_calls_chunks (paths : list string) :
  flat_map stdout_chunk (map FsStat paths) = [].
Proof. induction paths as [|p paths IH]; simpl; auto. Qed.

Lemma all_pending (paths : list string) :
  all_fulfilled (map (fun p => (p, None)) paths) =
  match paths with
  | [] => Some []
  | _ => None
  end.
Proof. now destruct paths. Qed.

Ltac stat_facts :=
  rewrite ?stat_calls_acts;
  rewrite ?stat_calls_ordered, ?stat_calls_existsb, ?stat_calls_filter,
    ?stat_calls_chunks by reflexivity.

Lemma session_inv_glob (r : string + list string) (s : state) :
  session_inv s -> crashed s = false ->
  session_inv (handle (GlobCallback r) s).
Proof.
  intros Hinv Hcr. unfold handle. rewrite Hcr.
  destruct s as [clk cr out re mt sv pf ls tm ch op tr].
  unfold session_inv, after_close, has, count, acts, trace_order,
    stdout_chunks in Hinv.
  cbn in Hinv, Hcr.
  destruct Hinv as (Hmt & Hls & Hord & Hpf & Hch). subst mt ls cr.
  destruct ch; crunch; try (open_inv; crunch; tauto).
  decompose [and] Hch; clear Hch; subst.
  destruct r as [msg|paths]; unfold glob_callback.
  - settle.
  - rewrite stat_calls. unfold await_stats. rewrite all_pending.
    destruct paths as [|p paths]; [unfold stats_ready; crunch; settle|].
    open_inv; step_script; trace_facts; stat_facts; use_hyps; crunch.
    rewrite ?stat_calls_ordered, ?stat_calls_existsb, ?stat_calls_filter,
      ?stat_calls_chunks by reflexivity.
    repeat split; reflexivity.
Qed.

Lemma session_inv_stat (i : nat) (r : string + Stats) (s : state) :
  session_inv s -> crashed s = false ->
  session_inv (handle (StatCallback i r) s).
Proof.
  intros Hinv Hcr. unfold handle. rewrite Hcr.
  destruct s as [clk cr out re mt sv pf ls tm ch op tr].
  unfold session_inv, after_close, has, count, acts, trace_order,
    stdout_chunks in Hinv.
  cbn in Hinv, Hcr.
  destruct Hinv as (Hmt & Hls & Hord & Hpf & Hch). subst mt ls cr.
  destruct ch; crunch; try (open_inv; crunch; tauto).
  decompose [and] Hch; clear Hch; subst.
  unfold stat_callback.
  destruct (nth_error rs i) as [[p [st|]]|];
    try (open_inv; crunch; tauto).
  destruct r as [msg|st]; [settle|].
  unfold await_stats. destruct (all_fulfilled _) as [es|]; [|settle].
  unfold stats_ready. destruct (latest es) as [e|q]; settle.
Qed.

Lemma session_inv_handle (ev : event) (s : state) :
  session_inv s -> session_inv (handle ev s).
Proof.
  intros Hinv. destruct (crashed s) eqn:Hcr.
  - unfold handle. now rewrite Hcr.
  - destruct ev; auto using session_inv_emit, session_inv_glob,
      session_inv_stat.
Qed.

(** ** ... and while time passes *)

Lemma session_inv_timer (cb : timer_cb) (c : Z) (s : state) :
  session_inv s -> session_inv (run_timer cb (set_clock c s)).
Proof.
  intros Hinv. destruct s as [clk cr out re mt sv pf ls tm ch op tr].
  unfold session_inv, after_close, has, count, acts, trace_order,
    stdout_chunks in Hinv.
  cbn in Hinv. destruct Hinv as (Hmt & Hls & Hord & Hpf & Hch). subst mt ls.
  destruct cb; unfold run_timer.
  destruct ch; destruct pf; decompose [and] Hch; clear Hch; subst;
    try discriminate; settle.
  all: apply (reported_app _ [Kill "SIGINT"]); auto.
Qed.

Lemma session_inv_fire (due : list (Z * timer_cb)) (s : state) :
  session_inv s ->
  session_inv
    (fold_left
       (fun s d => run_timer (snd d) (set_clock (Z.max (clock s) (fst d)) s))
       due s).
Proof.
  revert s. induction due as [|d due IH]; intros s Hinv; simpl; auto.
  apply IH, session_inv_timer, Hinv.
Qed.

Lemma session_inv_advance (t : Z) (s : state) :
  session_inv s -> session_inv (advance t s).
Proof.
  intros Hinv. unfold advance. destruct (crashed s); [exact Hinv|].
  match goal with
  | |- session_inv (set_clock _ ?x) =>
      assert (Hx : session_inv x); [|now destruct x]
  end.
  apply session_inv_fire. now destruct s.
Qed.

Lemma session_inv_run (evs : list (Z * event)) (s : state) :
  session_inv s -> session_inv (run evs s).
Proof.
  revert s. induction evs as [|te evs IH]; intros s Hinv; simpl; auto.
  apply IH, session_inv_handle, session_inv_advance, Hinv.
Qed.

(** ** The first turn *)

Lemma truthy_nonempty (v : string) : v <> "" -> truthy (Some v) = true.
Proof.
  intros Hv. unfold truthy. apply negb_true_iff. now apply String.eqb_neq.
Qed.

Lemma truthy_false (env : option string) :
  truthy env = false -> env = None \/ env = Some "".
Proof.
  destruct env as [v|]; [|now left]. unfold truthy.
  destruct (String.eqb_spec v ""); [subst; now right|discriminate].
Qed.

Section Sessions.
Variable ToNumber : string -> option Z.

Lemma session_inv_start (env : option string) :
  truthy env = true -> session_inv (application ToNumber env).
Proof.
  intros Hv. unfold application, executor. rewrite Hv.
  unfold setTimeout, outer_then, initial. settle.
Qed.

Lemma session_inv_reached (env : option string) (evs : list (Z * event))
    (T : Z) :
  truthy env = true ->
  session_inv (run_until T evs (application ToNumber env)).
Proof.
  intros Hv. apply session_inv_advance, session_inv_run, session_inv_start, Hv.
Qed.
End Sessions.

(** ** Handlers leave the clock and the timer alone *)

Lemma extends_refl (s : state) : extends s s.
Proof. repeat split. exists []. now rewrite app_nil_r. Qed.

Lemma extends_trans (s1 s2 s3 : state) :
  extends s1 s2 -> extends s2 s3 -> extends s1 s3.
Proof.
  intros (Hc & Ht & n & Hn & Hk) (Hc' & Ht' & n' & Hn' & Hk').
  repeat split; try congruence.
  exists (n ++ n'). split.
  - now rewrite Hn', Hn, app_assoc.
  - unfold kills in *. now rewrite filter_app, Hk, Hk'.
Qed.

Lemma extends_act (a : action) (s x : state) :
  is_kill a = false -> extends s x -> extends s (act a x).
Proof.
  intros Ha Hx. apply (extends_trans _ x); [exact Hx|].
  repeat split. exists [(clock x, a)]. split; [reflexivity|].
  unfold kills. simpl. now rewrite Ha.
Qed.

Lemma extends_same (s x y : state) :
  extends s x ->
  clock y = clock x /\ timers y = timers x /\ trace y = trace x ->
  extends s y.
Proof.
  intros Hx (Hc & Ht & Htr). apply (extends_trans _ x); [exact Hx|].
  repeat split; auto. exists []. now rewrite app_nil_r.
Qed.

Lemma extends_fold {A : Type} (f : state -> A -> state) (l : list A)
    (s x : state) :
  (forall y a, extends s y -> extends s (f y a)) ->
  extends s x -> extends s (fold_left f l x).
Proof.
  intros Hf. revert x. induction l as [|a l IH]; intros x Hx; simpl; auto.
Qed.

Ltac ext :=
  repeat first
    [ assumption
    | apply extends_refl
    | apply extends_act; [reflexivity|]
    | match goal with
      | |- extends _ (?f _ ?x) =>
          apply (extends_same _ x); [|repeat split; reflexivity]
      end ].

Lemma extends_catch (e : error) (s x : state) :
  extends s x -> extends s (catch_error e x).
Proof. intros Hx. unfold catch_error. ext. Qed.

Lemma extends_process (p : string) (s x : state) :
  extends s x -> extends s (process_profile p x).
Proof. intros Hx. unfold process_profile, on. ext. Qed.

Lemma extends_await (rs : list (string * option Stats)) (s x : state) :
  extends s x -> extends s (await_stats rs x).
Proof.
  intros Hx. unfold await_stats, stats_ready.
  destruct (all_fulfilled rs) as [es|]; [|ext].
  destruct (latest es); auto using extends_catch, extends_process.
Qed.

Lemma extends_call (h : handler) (arg : string) (s x : state) :
  extends s x -> extends s (call h arg x).
Proof.
  intros Hx. destruct h; unfold call, resolve_outer, print_report; ext.
  - destruct (outer _); ext.
  - destruct (chain x); auto using extends_catch.
  - destruct (chain x); ext.
Qed.

Lemma extends_drain (s x : state) : extends s x -> extends s (drain x).
Proof.
  intros Hx. unfold drain. apply extends_fold.
  - intros y [] Hy. unfold run_reaction. ext.
  - ext.
Qed.

Lemma extends_turn (ev : event) (s : state) : extends s (turn ev s).
Proof.
  destruct ev as [em name arg|r|i r]; unfold turn.
  - destruct (owner em s); try apply extends_refl.
    unfold closes, emit.
    assert (He : extends s
      match handlers em name (listeners (act (Emitted em name arg) s)) with
      | [] =>
          if (name =? "error")%string
          then set_crashed true
                 (act (Uncaught em arg) (act (Emitted em name arg) s))
          else act (Emitted em name arg) s
      | hs =>
          fold_left (fun s h => call h arg s) hs
            (act (Emitted em name arg) s)
      end).
    { destruct (handlers _ _ _) as [|h hs].
      - destruct (String.eqb name "error"); ext.
      - apply extends_fold; [intros; now apply extends_call|ext]. }
    destruct (String.eqb name "close"); [|exact He].
    destruct em; ext.
  - destruct (chain s); try apply extends_refl.
    unfold glob_callback. destruct r as [msg|paths].
    + apply extends_catch, extends_refl.
    + apply extends_await, extends_fold; [intros; ext|ext].
  - destruct (chain s); try apply extends_refl.
    unfold stat_callback. destruct (nth_error rs i) as [[p [st|]]|]; ext.
    destruct r; [apply extends_catch|apply extends_await]; ext.
Qed.

Lemma extends_handle (ev : event) (s : state) : extends s (handle ev s).
Proof.
  unfold handle. destruct (crashed s); [apply extends_refl|].
  apply extends_drain, extends_turn.
Qed.

(** ** Timers *)

(** Passing time only issues kill requests. *)
Lemma fire_spec (due : list (Z * timer_cb)) (x : state) :
  exists ks c,
    fold_left
      (fun s d => run_timer (snd d) (set_clock (Z.max (clock s) (fst d)) s))
      due x
    = set_clock c (set_trace (trace x ++ ks) x) /\
    exists n, map snd ks = repeat (Kill "SIGINT") n.
Proof.
  revert x. induction due as [|[d cb] due IH]; intros x.
  - exists [], (clock x). split; [|now exists 0%nat].
    simpl. rewrite app_nil_r. now destruct x.
  - simpl. destruct (IH (run_timer cb (set_clock (Z.max (clock x) d) x)))
      as (ks & c & -> & n & Hn).
    destruct cb. unfold run_timer, act.
    exists ((Z.max (clock x) d, Kill "SIGINT") :: ks), c. split.
    + destruct x. cbn. now rewrite <- app_assoc.
    + exists (S n). simpl. now rewrite Hn.
Qed.

Lemma advance_spec (t : Z) (s : state) :
  exists ks c tm,
    advance t s = set_clock c (set_timers tm (set_trace (trace s ++ ks) s)) /\
    exists n, map snd ks = repeat (Kill "SIGINT") n.
Proof.
  unfold advance. destruct (crashed s).
  - exists [], (clock s), (timers s). split; [|now exists 0%nat].
    rewrite app_nil_r. now destruct s.
  - match goal with
    | |- context [fold_left ?f ?due ?x] =>
        destruct (fire_spec due x) as (ks & c & -> & Hn)
    end.
    match goal with
    | |- context [set_timers ?l s] =>
        exists ks, (Z.max c t), l
    end.
    split; [|exact Hn]. destruct s. reflexivity.
Qed.

Lemma kills_only (P : action -> bool) (n : nat) :
  P (Kill "SIGINT") = false -> existsb P (repeat (Kill "SIGINT") n) = false.
Proof. intros HP. induction n; simpl; [reflexivity|now rewrite HP]. Qed.

Lemma advance_acts (t : Z) (s : state) :
  exists n, acts (advance t s) = acts s ++ repeat (Kill "SIGINT") n.
Proof.
  destruct (advance_spec t s) as (ks & c & tm & -> & n & Hn).
  exists n. unfold acts. cbn. now rewrite map_app, Hn.
Qed.

Lemma handle_acts (ev : event) (s : state) :
  exists new, acts (handle ev s) = acts s ++ new.
Proof.
  destruct (extends_handle ev s) as (_ & _ & new & Hn & _).
  exists (map snd new). unfold acts. now rewrite Hn, map_app.
Qed.

Lemma run_acts (evs : list (Z * event)) (s : state) :
  exists new, acts (run evs s) = acts s ++ new.
Proof.
  revert s. induction evs as [|[t ev] evs IH]; intros s; simpl.
  - exists []. now rewrite app_nil_r.
  - destruct (IH (deliver s (t, ev))) as [n1 ->]. unfold deliver. simpl.
    destruct (handle_acts ev (advance t s)) as [n2 ->].
    destruct (advance_acts t s) as [n3 ->].
    exists ((repeat (Kill "SIGINT") n3 ++ n2) ++ n1).
    now rewrite !app_assoc.
Qed.

Lemma timer_inv_handle (d : Z) (ev : event) (s : state) :
  timer_inv d s -> timer_inv d (handle ev s).
Proof.
  destruct (extends_handle ev s) as (Hc & Ht & new & Hn & Hk).
  unfold timer_inv, kills in *.
  rewrite Hc, Ht, Hn, filter_app, Hk, app_nil_r. auto.
Qed.

Lemma timer_inv_advance (d t : Z) (s : state) :
  timer_inv d s -> timer_inv d (advance t s).
Proof.
  unfold advance. destruct (crashed s); [auto|].
  destruct s as [clk cr out re mt sv pf ls tm ch op tr].
  unfold timer_inv, kills. cbn.
  intros [(-> & Hc & Hk)|(-> & Hk)]; cbn.
  - destruct (Z.leb_spec d t); cbn.
    + right. split; [reflexivity|]. rewrite filter_app, Hk. cbn.
      now rewrite Z.max_r by lia.
    + left. repeat split; auto. lia.
  - right. auto.
Qed.

Lemma timer_inv_run (d : Z) (evs : list (Z * event)) (s : state) :
  timer_inv d s -> timer_inv d (run evs s).
Proof.
  revert s. induction evs as [|te evs IH]; intros s Hinv; simpl; auto.
  apply IH, timer_inv_handle, timer_inv_advance, Hinv.
Qed.

Lemma timer_delay_positive (after : option Z) : 1 <= timer_delay after.
Proof.
  unfold timer_delay. destruct after as [n|]; [|lia].
  destruct (Z.leb_spec 1 n); simpl; [|lia].
  destruct (n <=? TIMEOUT_MAX); lia.
Qed.

(** When the clock reaches the deadline of a live process, the request has
    been issued. *)
Lemma timer_inv_due (d T : Z) (s : state) :
  timer_inv d s -> crashed s = false -> d <= T ->
  kills (trace (advance T s)) = [(d, Kill "SIGINT")].
Proof.
  unfold advance. intros Hinv ->.
  destruct s as [clk cr out re mt sv pf ls tm ch op tr].
  unfold timer_inv, kills in *. cbn in *.
  destruct Hinv as [(-> & Hc & Hk)|(-> & Hk)]; intros HT; cbn.
  - destruct (Z.leb_spec d T); [|lia]. cbn.
    rewrite filter_app, Hk. cbn. now rewrite Z.max_r by lia.
  - exact Hk.
Qed.

(** ** Runs in which nothing can happen any more *)

Lemma turn_dropped (ev : event) (s : state) :
  server s <> Running -> profile s <> Running ->
  chain s = Idle \/ chain s = Failed \/ chain s = Done ->
  turn ev s = s.
Proof.
  intros Hs Hp Hc. destruct ev as [em name arg|r|i r]; unfold turn.
  - destruct em; unfold owner; destruct (server s); destruct (profile s);
      congruence.
  - destruct Hc as [->|[->| ->]]; reflexivity.
  - destruct Hc as [->|[->| ->]]; reflexivity.
Qed.

Lemma handle_dropped (ev : event) (s : state) :
  server s <> Running -> profile s <> Running ->
  chain s = Idle \/ chain s = Failed \/ chain s = Done ->
  microtasks s = [] ->
  handle ev s = s.
Proof.
  intros Hs Hp Hc Hm. unfold handle. destruct (crashed s); [reflexivity|].
  rewrite turn_dropped by assumption. now apply drain_idle.
Qed.

Lemma inert_advance (t : Z) (s : state) :
  inert s ->
  inert (advance t s) /\ trace (advance t s) = trace s /\
  outer (advance t s) = outer s.
Proof.
  intros (Hs & Hp & Hc & Ht & Hm).
  unfold inert, advance.
  destruct s as [clk cr out re mt sv pf ls tm ch op tr]. cbn in *. subst.
  destruct cr; cbn; repeat split; reflexivity.
Qed.

Lemma inert_deliver (s : state) (te : Z * event) :
  inert s ->
  inert (deliver s te) /\ trace (deliver s te) = trace s /\
  outer (deliver s te) = outer s.
Proof.
  intros Hs.
  destruct (inert_advance (fst te) s Hs)
    as ((Hs' & Hp' & Hc' & Ht' & Hm') & Htr & Ho).
  unfold deliver. rewrite handle_dropped; try congruence; auto.
  repeat split; assumption.
Qed.

Lemma inert_run (evs : list (Z * event)) (s : state) :
  inert s ->
  inert (run evs s) /\ trace (run evs s) = trace s /\
  outer (run evs s) = outer s.
Proof.
  revert s. induction evs as [|te evs IH]; intros s Hs; simpl; [auto|].
  destruct (inert_deliver s te Hs) as (Hi & Htr & Ho).
  destruct (IH _ Hi) as (Hi' & Htr' & Ho').
  split; [exact Hi'|split; congruence].
Qed.

Lemma inert_run_until (T : Z) (evs : list (Z * event)) (s : state) :
  inert s ->
  inert (run_until T evs s) /\ trace (run_until T evs s) = trace s /\
  outer (run_until T evs s) = outer s.
Proof.
  intros Hs. destruct (inert_run evs s Hs) as (Hi & Htr & Ho).
  destruct (inert_advance T _ Hi) as (Hi' & Htr' & Ho').
  unfold run_until. split; [exact Hi'|split; congruence].
Qed.

(** The fields a session is made of do not change while time passes. *)
Lemma advance_fields (t : Z) (s : state) :
  crashed (advance t s) = crashed s /\ outer (advance t s) = outer s /\
  microtasks (advance t s) = microtasks s /\
  server (advance t s) = server s /\ profile (advance t s) = profile s /\
  listeners (advance t s) = listeners s /\ chain (advance t s) = chain s /\
  output (advance t s) = output s.
Proof.
  destruct (advance_spec t s) as (ks & c & tm & -> & _).
  repeat split; reflexivity.
Qed.

Section Starts.
Variable ToNumber : string -> option Z.

(** With the variable absent or empty, the first turn resolves the promise
    and loads the service; nothing else is set up. *)
Lemma disabled_start (env : option string) :
  truthy env = false ->
  inert (application ToNumber env) /\
  trace (application ToNumber env) =
    [(0, Resolve); (0, Require "./server.js")] /\
  outer (application ToNumber env) = Fulfilled.
Proof.
  intros Hv. unfold application, executor. rewrite Hv.
  repeat split; reflexivity.
Qed.

Lemma disabled_run (env : option string) (evs : list (Z * event)) (T : Z) :
  truthy env = false ->
  inert (run_until T evs (application ToNumber env)) /\
  trace (run_until T evs (application ToNumber env)) =
    [(0, Resolve); (0, Require "./server.js")] /\
  outer (run_until T evs (application ToNumber env)) = Fulfilled.
Proof.
  intros Hv. destruct (disabled_start env Hv) as (Hi & Htr & Ho).
  destruct (inert_run_until T evs _ Hi) as (Hi' & Htr' & Ho').
  split; [exact Hi'|split; congruence].
Qed.

(** The timer armed by the first turn. *)
Lemma timer_inv_start (env : option string) :
  truthy env = true ->
  timer_inv (timer_delay (number ToNumber env)) (application ToNumber env).
Proof.
  intros Hv. unfold application, executor. rewrite Hv.
  left. cbn. repeat split.
  pose proof (timer_delay_positive (number ToNumber env)). lia.
Qed.
End Starts.

(** ** While the post-processor runs *)

Lemma kills_no_chunks (n : nat) :
  stdout_chunks (repeat (Kill "SIGINT") n) = [].
Proof. induction n; simpl; auto. Qed.

(** What the two events of a running post-processor do. *)
Lemma postprocessing_step (s : state) :
  session_inv s -> chain s = PostProcessing -> crashed s = false ->
  (forall c,
     chain (handle (Emit ProfileStdout "data" c) s) = PostProcessing /\
     crashed (handle (Emit ProfileStdout "data" c) s) = false /\
     acts (handle (Emit ProfileStdout "data" c) s) =
       acts s ++ [Emitted ProfileStdout "data" c]) /\
  (forall arg,
     chain (handle (Emit Profile "close" arg) s) = Done /\
     acts (handle (Emit Profile "close" arg) s) =
       acts s ++ report_block arg (join (stdout_chunks (acts s)))).
Proof.
  intros Hinv Hc Hcr. unfold handle. rewrite Hcr.
  destruct Hinv as (Hm & Hls & _ & Hpf & Hch). rewrite Hc in Hch.
  destruct Hch as (_ & Hp & _). rewrite Hp in Hls, Hpf.
  destruct s as [clk cr out re mt sv pf ls tm ch op tr].
  unfold acts, profile_listeners in *. cbn in Hc, Hcr, Hm, Hls, Hp, Hpf. subst.
  split; intros; crunch; step_script; rewrite ?map_app; cbn [map snd];
    rewrite <- ?app_assoc; repeat split; reflexivity.
Qed.

Lemma postprocessing_advance (t : Z) (s : state) :
  session_inv s -> chain s = PostProcessing -> crashed s = false ->
  session_inv (advance t s) /\ chain (advance t s) = PostProcessing /\
  crashed (advance t s) = false /\
  stdout_chunks (acts (advance t s)) = stdout_chunks (acts s).
Proof.
  intros Hinv Hc Hcr.
  destruct (advance_fields t s) as (E1 & _ & _ & _ & _ & _ & E2 & _).
  destruct (advance_acts t s) as [n Hn].
  rewrite E1, E2, Hn, stdout_chunks_app, kills_no_chunks, app_nil_r.
  auto using session_inv_advance.
Qed.

Lemma postprocessing_chunks (cs : list (Z * string)) (s : state) :
  session_inv s -> chain s = PostProcessing -> crashed s = false ->
  session_inv (run (map chunk_event cs) s) /\
  chain (run (map chunk_event cs) s) = PostProcessing /\
  crashed (run (map chunk_event cs) s) = false /\
  stdout_chunks (acts (run (map chunk_event cs) s)) =
    stdout_chunks (acts s) ++ map snd cs.
Proof.
  revert s. induction cs as [|[t c] cs IH]; intros s Hinv Hc Hcr.
  - simpl. rewrite app_nil_r. repeat (split; [assumption|]). reflexivity.
  - change (run (map chunk_event ((t, c) :: cs)) s)
      with (run (map chunk_event cs)
              (handle (Emit ProfileStdout "data" c) (advance t s))).
    cbn [map snd].
    destruct (postprocessing_advance t s Hinv Hc Hcr)
      as (Hinv1 & Hc1 & Hcr1 & Hch1).
    destruct (postprocessing_step _ Hinv1 Hc1 Hcr1) as (Hstep & _).
    destruct (Hstep c) as (Hc2 & Hcr2 & Ha2).
    destruct (IH (handle (Emit ProfileStdout "data" c) (advance t s)))
      as (Hinv3 & Hc3 & Hcr3 & Hch3); auto using session_inv_handle.
    split; [exact Hinv3|]. split; [exact Hc3|]. split; [exact Hcr3|].
    rewrite Hch3, Ha2, stdout_chunks_app, Hch1, <- app_assoc. reflexivity.
Qed.

(** The launch failure of the post-processor: Node emits 'error' on the
    child. The script listens for 'err', so the event is thrown. *)
Lemma postprocessing_error (s : state) (arg : string) :
  session_inv s -> chain s = PostProcessing -> crashed s = false ->
  crashed (handle (Emit Profile "error" arg) s) = true /\
  chain (handle (Emit Profile "error" arg) s) = PostProcessing /\
  acts (handle (Emit Profile "error" arg) s) =
    acts s ++ [Emitted Profile "error" arg; Uncaught Profile arg].
Proof.
  intros Hinv Hc Hcr. unfold handle. rewrite Hcr.
  destruct Hinv as (Hm & Hls & _ & Hpf & Hch). rewrite Hc in Hch.
  destruct Hch as (_ & Hp & _). rewrite Hp in Hls, Hpf.
  destruct s as [clk cr out re mt sv pf ls tm ch op tr].
  unfold acts, profile_listeners in *. cbn in Hc, Hcr, Hm, Hls, Hp, Hpf. subst.
  crunch; step_script; rewrite ?map_app; cbn [map snd];
    rewrite <- ?app_assoc; repeat split; reflexivity.
Qed.

(** * The claims *)

Section Claims.
Variable ToNumber : string -> option Z.

Lemma reached (env : option string) (evs : list (Z * event)) :
  (truthy env = true /\ session_inv (run evs (application ToNumber env))) \/
  (truthy env = false /\ inert (run evs (application ToNumber env))).
Proof.
  destruct (truthy env) eqn:Hv; [left|right]; split; auto.
  - apply session_inv_run, session_inv_start, Hv.
  - apply inert_run, disabled_start, Hv.
Qed.

(** C1, as the script has it: with profiling enabled the service is loaded
    only after the profiled child's close event, and it is loaded as soon
    as that event has been handled; the post-processor is spawned, and the
    report or the warning is written, only after the service has been
    loaded. *)
Theorem service_loaded_at_close (env : option string)
    (evs : list (Z * event)) (T : Z) :
  truthy env = true ->
  precedes is_server_close is_service_load
    (acts (session ToNumber env evs T)) /\
  (has is_server_close (session ToNumber env evs T) = true ->
   has is_service_load (session ToNumber env evs T) = true) /\
  precedes is_service_load is_postprocessor_spawn
    (acts (session ToNumber env evs T)) /\
  precedes is_service_load is_report (acts (session ToNumber env evs T)) /\
  precedes is_service_load is_warn (acts (session ToNumber env evs T)).
Proof.
  intros Hv. pose proof (session_inv_reached ToNumber env evs T Hv) as Hinv.
  fold (session ToNumber env evs T) in Hinv.
  destruct Hinv as (_ & _ & (O1 & O2 & O3 & O4 & O5) & _ & Hch).
  repeat split; try now apply ordered_precedes.
  intros Hc. destruct (chain _); unfold after_close in Hch; try tauto.
  destruct Hch as (_ & _ & _ & _ & Hn & _). congruence.
Qed.

(** C2: the post-processor is spawned only after the close event of the
    profiled child has been handled; a timer that expires spawns
    nothing. *)
Theorem postprocessor_after_close (env : option string)
    (evs : list (Z * event)) (T : Z) :
  precedes is_server_close is_postprocessor_spawn
    (acts (session ToNumber env evs T)) /\
  (forall (s : state) (t : Z), has is_spawn (advance t s) = has is_spawn s).
Proof.
  split.
  - apply ordered_precedes. destruct (truthy env) eqn:Hv.
    + pose proof (session_inv_reached ToNumber env evs T Hv) as Hinv.
      now destruct Hinv as (_ & _ & (_ & O2 & _) & _).
    + destruct (disabled_run ToNumber env evs T Hv) as (_ & Htr & _).
      unfold session, acts. now rewrite Htr.
  - intros s t. destruct (advance_acts t s) as [n Hn]. unfold has.
    now rewrite Hn, existsb_app, kills_only, orb_false_r.
Qed.

(** C8: with DEBUG_PROFILE_TIME absent or empty the first turn resolves the
    promise and loads the service, and whatever happens later no child is
    spawned. *)
Theorem disabled_fast_path (env : option string) (evs : list (Z * event))
    (T : Z) :
  env = None \/ env = Some "" ->
  trace (application ToNumber env) =
    [(0, Resolve); (0, Require "./server.js")] /\
  trace (session ToNumber env evs T) =
    [(0, Resolve); (0, Require "./server.js")] /\
  has is_spawn (session ToNumber env evs T) = false.
Proof.
  intros Henv.
  assert (Hv : truthy env = false) by (destruct Henv; now subst).
  destruct (disabled_run ToNumber env evs T Hv) as (_ & Htr & _).
  destruct (disabled_start ToNumber env Hv) as (_ & Htr0 & _).
  repeat split; auto. unfold has, acts, session. now rewrite Htr.
Qed.

(** The outer promise of a run whose first turn goes through: it is never
    rejected, and resolve is called in the first turn when profiling is
    disabled and in the turn of the child's close event otherwise. *)
Lemma healthy_outer_promise (env : option string)
    (evs : list (Z * event)) (T : Z) :
  outer (session ToNumber env evs T) <> Rejected /\
  (count is_resolve (session ToNumber env evs T) <= 1)%nat /\
  (truthy env = false ->
   count is_resolve (application ToNumber env) = 1%nat /\
   has is_service_load (application ToNumber env) = true) /\
  (truthy env = true ->
   (count is_resolve (session ToNumber env evs T) = 1%nat <->
    has is_server_close (session ToNumber env evs T) = true)) /\
  (count is_resolve (session ToNumber env evs T) = 1%nat ->
   outer (session ToNumber env evs T) = Fulfilled /\
   has is_service_load (session ToNumber env evs T) = true).
Proof.
  destruct (truthy env) eqn:Hv.
  - pose proof (session_inv_reached ToNumber env evs T Hv) as Hinv.
    fold (session ToNumber env evs T) in Hinv.
    destruct Hinv as (_ & _ & _ & _ & Hch).
    destruct (chain _); unfold after_close in Hch;
      decompose [and] Hch; clear Hch;
      repeat split; try congruence; try lia; try discriminate.
  - destruct (disabled_run ToNumber env evs T Hv) as (_ & Htr & Ho).
    destruct (disabled_start ToNumber env Hv) as (_ & Htr0 & _).
    fold (session ToNumber env evs T) in Htr, Ho.
    unfold count, has, acts. rewrite Htr, Htr0, Ho. cbn.
    repeat split; try congruence; try lia; try discriminate.
Qed.

Lemma healthy_session (env : option string) (evs : list (Z * event))
    (T : Z) :
  session_at ToNumber Healthy env evs T = session ToNumber env evs T.
Proof. reflexivity. Qed.

(** With profiling disabled the guard returns before anything can throw. *)
Lemma disabled_startup (w : startup) (env : option string) :
  truthy env = false -> application_at ToNumber w env = application ToNumber env.
Proof.
  intros Hv. unfold application_at, application, executor_at, executor.
  now rewrite Hv.
Qed.

(** A throwing executor leaves a rejected promise and nothing else: no
    child, no listener, no timer. *)
Lemma throwing_startup (w : startup) (env : option string)
    (evs : list (Z * event)) (T : Z) :
  w <> Healthy -> truthy env = true ->
  outer (session_at ToNumber w env evs T) = Rejected /\
  acts (session_at ToNumber w env evs T) =
    [Log [("Profiling application for " ++ text env ++ " ms...")%string]].
Proof.
  intros Hw Hv.
  assert (Hi : inert (application_at ToNumber w env) /\
               trace (application_at ToNumber w env) =
                 [(0, Log [("Profiling application for " ++ text env
                            ++ " ms...")%string])] /\
               outer (application_at ToNumber w env) = Rejected).
  { unfold application_at, executor_at. rewrite Hv.
    destruct w; [congruence| |]; repeat split; reflexivity. }
  destruct Hi as (Hi & Htr & Ho).
  destruct (inert_run_until T evs _ Hi) as (_ & Htr' & Ho').
  unfold session_at, acts. rewrite Ho', Htr', Ho, Htr. split; reflexivity.
Qed.

(** C10, as the script has it: the script never calls reject, so the outer
    promise is rejected only when the executor itself throws with profiling
    enabled (a require or the spawn failing on the spot), and then resolve
    is never called and the service is not loaded. resolve is called at most
    once: in the first turn when profiling is disabled, before anything can
    throw, and otherwise in the turn of the profiled child's close event, so
    not at all as long as that event does not arrive; once it has been
    called the promise is fulfilled and the service is loaded. *)
Theorem outer_promise_settled_at_most_once (w : startup)
    (env : option string) (evs : list (Z * event)) (T : Z) :
  (count is_resolve (session_at ToNumber w env evs T) <= 1)%nat /\
  (truthy env = false ->
   count is_resolve (application_at ToNumber w env) = 1%nat /\
   has is_service_load (application_at ToNumber w env) = true) /\
  (truthy env = true -> w = Healthy ->
   (count is_resolve (session_at ToNumber w env evs T) = 1%nat <->
    has is_server_close (session_at ToNumber w env evs T) = true)) /\
  (count is_resolve (session_at ToNumber w env evs T) = 1%nat ->
   outer (session_at ToNumber w env evs T) = Fulfilled /\
   has is_service_load (session_at ToNumber w env evs T) = true) /\
  (outer (session_at ToNumber w env evs T) = Rejected <->
   w <> Healthy /\ truthy env = true) /\
  (outer (session_at ToNumber w env evs T) = Rejected ->
   count is_resolve (session_at ToNumber w env evs T) = 0%nat /\
   has is_service_load (session_at ToNumber w env evs T) = false).
Proof.
  assert (Hgood : w = Healthy \/ truthy env = false ->
                  session_at ToNumber w env evs T = session ToNumber env evs T /\
                  (truthy env = false ->
                   application_at ToNumber w env = application ToNumber env)).
  { intros [->|Hv].
    - split; [reflexivity|]. intros Hv. now apply disabled_startup.
    - split; [|intros _; now apply disabled_startup].
      unfold session_at, session. now rewrite disabled_startup. }
  destruct (healthy_outer_promise env evs T) as (H1 & H2 & H3 & H4 & H5).
  destruct (truthy env) eqn:Hv; [destruct w|].
  - destruct (Hgood (or_introl eq_refl)) as (-> & _).
    split; [exact H2|]. split; [discriminate|].
    split; [intros _ _; now apply H4|]. split; [exact H5|].
    split; [|intros Ho; now destruct H1].
    split; [intros Ho; now destruct H1|intros (Hw & _); now destruct Hw].
  - destruct (throwing_startup RequireThrows env evs T) as (Ho & Ha);
      [discriminate|exact Hv|].
    unfold count, has. rewrite Ho, Ha. cbn.
    repeat split; auto; try discriminate; try lia.
  - destruct (throwing_startup SpawnThrows env evs T) as (Ho & Ha);
      [discriminate|exact Hv|].
    unfold count, has. rewrite Ho, Ha. cbn.
    repeat split; auto; try discriminate; try lia.
  - destruct (Hgood (or_intror eq_refl)) as (-> & Happ).
    rewrite (Happ eq_refl).
    split; [exact H2|]. split; [exact H3|].
    split; [discriminate|]. split; [exact H5|].
    split; [|intros Ho; now destruct H1].
    split; [intros Ho; now destruct H1|intros (_ & Hf); discriminate].
Qed.

Lemma failed_locating_advance (w : action) (t : Z) (s : state) :
  failed_locating w s -> failed_locating w (advance t s).
Proof.
  intros (Hc & Hcr & Hp & Hs & Hm & Hw).
  destruct (advance_fields t s) as (E1 & _ & E2 & E3 & E4 & _ & E5 & _).
  destruct (advance_acts t s) as [n Hn].
  unfold failed_locating. rewrite E1, E2, E3, E4, E5, Hn.
  repeat split; auto. apply in_or_app. now left.
Qed.

Lemma failed_locating_run (w : action) (evs : list (Z * event))
    (s : state) :
  failed_locating w s -> failed_locating w (run evs s).
Proof.
  revert s. induction evs as [|te evs IH]; intros s Hs; simpl; auto.
  apply IH. unfold deliver.
  pose proof (failed_locating_advance w (fst te) s Hs) as Ha.
  destruct Ha as (Hc & Hcr & Hp & Hsv & Hm & Hw).
  rewrite handle_dropped; try congruence; auto.
  repeat split; auto.
Qed.

(** C4: when glob reports no match after the profiled child has closed,
    picking the newest of no candidates throws; the session ends in Failed
    with that error logged as a warning, the process stays alive, no report
    is written and no post-processor is ever spawned. *)
Theorem no_artifact_fails_session (env : option string)
    (pre post : list (Z * event)) (t T : Z) :
  chain (run pre (application ToNumber env)) = Globbing ->
  latest [] = inl (TypeError "Cannot read property 'path' of undefined") /\
  chain (session ToNumber env (pre ++ (t, GlobCallback (inr [])) :: post) T)
    = Failed /\
  crashed
    (session ToNumber env (pre ++ (t, GlobCallback (inr [])) :: post) T)
    = false /\
  In (Warn "Error processing profile"
        (TypeError "Cannot read property 'path' of undefined"))
     (acts
        (session ToNumber env (pre ++ (t, GlobCallback (inr [])) :: post)
           T)) /\
  has is_postprocessor_spawn
    (session ToNumber env (pre ++ (t, GlobCallback (inr [])) :: post) T)
    = false /\
  has is_report
    (session ToNumber env (pre ++ (t, GlobCallback (inr [])) :: post) T)
    = false.
Proof.
  intros Hg. split; [reflexivity|].
  destruct (reached env pre) as [(Hv & Hinv)|(_ & (_ & _ & Hc & _))];
    [|congruence].
  set (w := Warn "Error processing profile"
              (TypeError "Cannot read property 'path' of undefined")).
  assert (Hf : failed_locating w
                 (session ToNumber env
                    (pre ++ (t, GlobCallback (inr [])) :: post) T)).
  { unfold session, run_until, run. rewrite fold_left_app. simpl.
    apply failed_locating_advance, failed_locating_run.
    fold (run pre (application ToNumber env)).
    destruct Hinv as (Hm & _ & _ & _ & Hch). rewrite Hg in Hch.
    destruct Hch as ((Hsv & _) & Hp & Hcr & _).
    unfold deliver. cbn [fst snd].
    destruct (advance_fields t (run pre (application ToNumber env)))
      as (E1 & _ & E2 & E3 & E4 & _ & E5 & _).
    destruct (advance t (run pre (application ToNumber env)))
      as [clk cr out re mt sv pf ls tm ch op tr].
    cbn in E1, E2, E3, E4, E5. subst cr mt sv pf ch.
    rewrite Hcr, Hm, Hsv, Hp, Hg. unfold failed_locating, handle, acts. cbn.
    repeat split. rewrite map_app. apply in_or_app. right. now left. }
  pose proof (session_inv_reached ToNumber env
                (pre ++ (t, GlobCallback (inr [])) :: post) T Hv) as HF.
  fold (session ToNumber env (pre ++ (t, GlobCallback (inr [])) :: post) T)
    in HF.
  destruct Hf as (Hc & Hcr & Hp & _ & _ & Hw).
  destruct HF as (_ & _ & _ & Hpf & Hch). rewrite Hp in Hpf.
  rewrite Hc in Hch. repeat split; tauto.
Qed.

(** C5, as the script has it: while the post-processor runs, every chunk of
    its standard output is appended to the report buffer, and a chunk of
    its standard error leaves the buffer as it is. *)
Theorem stdout_captured_stderr_ignored (env : option string)
    (evs : list (Z * event)) (c : string) :
  profile (run evs (application ToNumber env)) = Running ->
  crashed (run evs (application ToNumber env)) = false ->
  chunk_captured ProfileStdout c (run evs (application ToNumber env)) /\
  output (handle (Emit ProfileStderr "data" c)
            (run evs (application ToNumber env)))
    = output (run evs (application ToNumber env)).
Proof.
  intros Hp Hcr.
  destruct (reached env evs) as [(Hv & Hinv)|(_ & (_ & Hn & _))];
    [|congruence].
  unfold chunk_captured, handle. rewrite Hcr.
  destruct Hinv as (Hm & Hls & _). rewrite Hp in Hls.
  destruct (run evs (application ToNumber env))
    as [clk cr out re mt sv pf ls tm ch op tr].
  cbn in Hp, Hcr, Hm, Hls. subst. step_script. split; reflexivity.
Qed.

(** In a session that has reached Done, the trace holds the bracketed
    report, and its body is the concatenation, in arrival order, of all the
    chunks the post-processor emitted on its standard output. *)
Lemma finished_session_report (env : option string)
    (evs : list (Z * event)) (T : Z) :
  chain (session ToNumber env evs T) = Done ->
  exists before arg after,
    acts (session ToNumber env evs T) =
      before ++ report_block arg (join (stdout_chunks before)) ++ after /\
    stdout_chunks after = [] /\
    stdout_chunks (acts (session ToNumber env evs T)) = stdout_chunks before.
Proof.
  intros Hd. unfold session in *.
  destruct (truthy env) eqn:Hv.
  - pose proof (session_inv_reached ToNumber env evs T Hv) as Hinv.
    destruct Hinv as (_ & _ & _ & _ & Hch). rewrite Hd in Hch.
    destruct Hch as (_ & _ & _ & (tr1 & arg & tr2 & Htr & H2)).
    exists tr1, arg, tr2. repeat split; auto.
    rewrite Htr, !stdout_chunks_app, H2.
    replace (stdout_chunks (report_block arg (join (stdout_chunks tr1))))
      with (@nil string) by reflexivity.
    now rewrite !app_nil_r.
  - destruct (disabled_run ToNumber env evs T Hv) as ((_ & _ & Hc & _) & _).
    congruence.
Qed.

(** C7: whenever the running post-processor emits a sequence of chunks on
    its standard output and then closes, the session reaches Done and the
    report written between the two bracket lines is the concatenation, in
    arrival order, of every chunk its standard output has emitted: those
    of the sequence, after any that came before it. *)
Theorem report_is_stdout_in_order (env : option string)
    (evs : list (Z * event)) (cs : list (Z * string)) (tc : Z)
    (arg : string) (T : Z) :
  chain (run evs (application ToNumber env)) = PostProcessing ->
  crashed (run evs (application ToNumber env)) = false ->
  chain (session ToNumber env
           (evs ++ map chunk_event cs ++ [(tc, Emit Profile "close" arg)])
           T) = Done /\
  exists before after,
    acts (session ToNumber env
            (evs ++ map chunk_event cs ++ [(tc, Emit Profile "close" arg)])
            T) =
      before ++
      report_block arg
        (join (stdout_chunks (acts (run evs (application ToNumber env)))
               ++ map snd cs)) ++
      after /\
    stdout_chunks before =
      stdout_chunks (acts (run evs (application ToNumber env))) ++
      map snd cs /\
    stdout_chunks after = [].
Proof.
  intros Hc Hcr.
  destruct (reached env evs) as [(Hv & Hinv)|(_ & (_ & _ & Hi & _))];
    [|congruence].
  unfold session, run_until, run. rewrite !fold_left_app.
  fold (run evs (application ToNumber env)).
  set (s0 := run evs (application ToNumber env)) in *.
  fold (run (map chunk_event cs) s0).
  destruct (postprocessing_chunks cs s0 Hinv Hc Hcr)
    as (Hinv1 & Hc1 & Hcr1 & Hch1).
  set (s1 := run (map chunk_event cs) s0) in *.
  cbn [fold_left]. unfold deliver. cbn [fst snd].
  destruct (postprocessing_advance tc s1 Hinv1 Hc1 Hcr1)
    as (Hinv2 & Hc2 & Hcr2 & Hch2).
  destruct (postprocessing_step _ Hinv2 Hc2 Hcr2) as (_ & Hstep).
  destruct (Hstep arg) as (Hd & Ha).
  set (s3 := handle (Emit Profile "close" arg) (advance tc s1)) in *.
  destruct (advance_fields T s3) as (_ & _ & _ & _ & _ & _ & E & _).
  destruct (advance_acts T s3) as [n Hn].
  split; [congruence|].
  exists (acts (advance tc s1)), (repeat (Kill "SIGINT") n).
  rewrite Hn, Ha, Hch2, Hch1, kills_no_chunks, <- app_assoc. auto.
Qed.

(** C9, as the runtime has it: for a duration N between 0 and 2^31 - 1 the
    only kill request the script ever issues is one SIGINT, at max(N, 1)
    milliseconds; it has been issued once the clock of a live process has
    reached that time. *)
Theorem kill_issued_once_at_deadline (v : string) (N : Z)
    (evs : list (Z * event)) (T : Z) :
  v <> "" -> ToNumber v = Some N -> 0 <= N <= TIMEOUT_MAX ->
  (kills (trace (session ToNumber (Some v) evs T)) = [] \/
   kills (trace (session ToNumber (Some v) evs T)) =
     [(Z.max 1 N, Kill "SIGINT")]) /\
  (crashed (session ToNumber (Some v) evs T) = false -> Z.max 1 N <= T ->
   kills (trace (session ToNumber (Some v) evs T)) =
     [(Z.max 1 N, Kill "SIGINT")]).
Proof.
  intros Hv HN Hr.
  pose proof (timer_inv_start ToNumber (Some v) (truthy_nonempty v Hv)) as H0.
  cbn [number] in H0. rewrite HN in H0.
  assert (Hd : timer_delay (Some N) = Z.max 1 N).
  { unfold timer_delay.
    destruct (Z.leb_spec 1 N); destruct (Z.leb_spec N TIMEOUT_MAX); cbn;
      lia. }
  rewrite Hd in H0. apply (timer_inv_run _ evs) in H0. split.
  - apply (timer_inv_advance _ T) in H0. unfold session, run_until.
    destruct H0 as [(_ & _ & Hk)|(_ & Hk)]; auto.
  - intros Hcr HT. unfold session, run_until in *.
    apply timer_inv_due; auto.
    destruct (advance_fields T (run evs (application ToNumber (Some v))))
      as (E & _). congruence.
Qed.
End Claims.

(** C6: of a non-empty array of stat-ed candidates the script picks the path
    of the first, in listing order, among those with the greatest
    modification time: every candidate listed before it is strictly older and
    none listed after it is newer. *)
Theorem latest_is_most_recent (paths : list entry) :
  paths <> [] ->
  exists before c after,
    paths = before ++ c :: after /\
    latest paths = inr (path c) /\
    (forall e, In e before -> mtime (stat e) < mtime (stat c)) /\
    (forall e, In e after -> mtime (stat e) <= mtime (stat c)).
Proof.
  intros Hne.
  destruct (sort_head_first_max paths Hne)
    as (before & c & after & tl & Hl & Hs & Hb & Ha).
  exists before, c, after. unfold latest. rewrite Hs. auto.
Qed.

(** C3: the launch failure of the post-processor reaches the child as an
    'error' event; the script listens for 'err', so nobody handles it: the
    supervisor, which has loaded the service by then, dies of the uncaught
    error, no warning is logged and the session never reaches Failed. *)
Theorem spawn_error_uncaught :
  crashed (session ToNumber_decimal (Some "100") spawn_fails 200) = true /\
  has is_uncaught (session ToNumber_decimal (Some "100") spawn_fails 200)
    = true /\
  has is_warn (session ToNumber_decimal (Some "100") spawn_fails 200)
    = false /\
  chain (session ToNumber_decimal (Some "100") spawn_fails 200)
    = PostProcessing /\
  has is_service_load (session ToNumber_decimal (Some "100") spawn_fails 200)
    = true.
Proof. vm_compute. repeat split. Qed.

(** * Concrete runs *)

(** P3 of the specification: of A (t=10), B (t=30) and C (t=20) the script
    picks B; of two candidates with the same time it picks the one listed
    first. *)
Example newest_of_three : latest candidates = inr "B".
Proof. reflexivity. Qed.

Example tie_keeps_listing_order :
  latest [{| path := "x"; stat := {| mtime := 7 |} |};
          {| path := "y"; stat := {| mtime := 7 |} |}] = inr "x".
Proof. reflexivity. Qed.

(** P6 of the specification: the chunks "AB", "CD", "EF" give the report
    "ABCDEF". *)
Example three_chunks_report :
  In (Log ["ABCDEF"])
     (acts (session ToNumber_decimal (Some "100") report_written 200)).
Proof. vm_compute. repeat ((left; reflexivity) || right). Qed.

(** What reaches the report when both streams are written to. *)
Example stderr_not_in_report :
  In (Log ["AB"])
     (acts (session ToNumber_decimal (Some "100") both_streams 200)) /\
  stderr_chunks
    (acts (session ToNumber_decimal (Some "100") both_streams 200)) = ["zz"].
Proof.
  split; [|reflexivity]. vm_compute. repeat ((left; reflexivity) || right).
Qed.

(** A duration of 0 enables profiling, and the request is issued at the first
    millisecond. *)
Example zero_duration :
  kills (trace (session ToNumber_decimal (Some "0") [] 1)) =
    [(1, Kill "SIGINT")].
Proof. reflexivity. Qed.

(** ** Where the specification and the script part *)

(** C1 as written fails: right after the close event the service is loaded
    while the session is still looking for the artifact. *)
Lemma service_loaded_before_session_ends :
  ~ loads_after_session (session ToNumber_decimal (Some "100") child_closes 105).
Proof.
  intros H. destruct H as [H|H]; [reflexivity| |]; vm_compute in H;
    discriminate H.
Qed.

(** C5 as written fails: a chunk of the post-processor's standard error is not
    appended to the buffer. *)
Lemma stderr_chunk_not_captured :
  ~ chunk_captured ProfileStderr "zz"
      (run artifact_found (application ToNumber_decimal (Some "100"))).
Proof. intros H. vm_compute in H. discriminate H. Qed.

(** C9 as written fails: a duration of 2^31 milliseconds is beyond what a
    timer accepts, and the request is issued after one millisecond. *)
Lemma oversized_duration_fires_at_once :
  ~ issued_after 2147483648
      (session ToNumber_decimal (Some "2147483648") [] 1).
Proof.
  intros H. specialize (H 1 (Kill "SIGINT")).
  assert (Hk : 2147483648 <= 1); [|lia].
  apply H. vm_compute. now left.
Qed.

(** C10 as written fails. When the profiled child cannot be started, its
    error event ends the supervisor and resolve is never called; as long as
    the child has not closed, resolve has not been called either; and when
    the executor throws, the promise is rejected. In all three runs the
    service is not loaded. *)
Lemma outer_promise_unsettled_or_rejected :
  ~ settled_by_one_resolve
      (session ToNumber_decimal (Some "100") server_spawn_fails 1000000) /\
  ~ settled_by_one_resolve
      (session ToNumber_decimal (Some "100") [] 1000000) /\
  ~ settled_by_one_resolve
      (session_at ToNumber_decimal RequireThrows (Some "100") [] 1000000) /\
  (crashed (session ToNumber_decimal (Some "100") server_spawn_fails 1000000) = true /\
   count is_resolve
     (session ToNumber_decimal (Some "100") server_spawn_fails 1000000) = 0%nat /\
   has is_service_load
     (session ToNumber_decimal (Some "100") server_spawn_fails 1000000) = false) /\
  (outer (session ToNumber_decimal (Some "100") [] 1000000) = Pending /\
   count is_resolve
     (session ToNumber_decimal (Some "100") [] 1000000) = 0%nat /\
   has is_service_load
     (session ToNumber_decimal (Some "100") [] 1000000) = false) /\
  (outer (session_at ToNumber_decimal RequireThrows (Some "100") [] 1000000)
     = Rejected /\
   has is_service_load
     (session_at ToNumber_decimal RequireThrows (Some "100") [] 1000000)
     = false).
Proof.
  split; [|split; [|split]];
    try (intros (_ & H); vm_compute in H; discriminate H).
  vm_compute. repeat split.
Qed.

(** The same holds when it is the spawn that throws. *)
Example spawn_throws_rejects :
  outer (session_at ToNumber_decimal SpawnThrows (Some "100") child_closes 200)
    = Rejected /\
  acts (session_at ToNumber_decimal SpawnThrows (Some "100") child_closes 200)
    = [Log ["Profiling application for 100 ms..."]] /\
  session_at ToNumber_decimal SpawnThrows None child_closes 200
    = session ToNumber_decimal None child_closes 200.
Proof. vm_compute. repeat split. Qed.

(** ** The theorems at work *)

Lemma service_loaded_at_close_witness :
  truthy (Some "100") = true /\
  (precedes is_server_close is_service_load
     (acts (session ToNumber_decimal (Some "100") report_written 200)) /\
   (has is_server_close
      (session ToNumber_decimal (Some "100") report_written 200) = true ->
    has is_service_load
      (session ToNumber_decimal (Some "100") report_written 200) = true) /\
   precedes is_service_load is_postprocessor_spawn
     (acts (session ToNumber_decimal (Some "100") report_written 200)) /\
   precedes is_service_load is_report
     (acts (session ToNumber_decimal (Some "100") report_written 200)) /\
   precedes is_service_load is_warn
     (acts (session ToNumber_decimal (Some "100") report_written 200))).
Proof.
  split; [reflexivity|].
  apply (service_loaded_at_close ToNumber_decimal (Some "100") report_written
           200).
  reflexivity.
Defined.

Lemma no_artifact_fails_session_witness :
  chain (run child_closes (application ToNumber_decimal (Some "100")))
    = Globbing /\
  chain (session ToNumber_decimal (Some "100")
           (child_closes ++ (106, GlobCallback (inr [])) :: []) 200)
    = Failed /\
  has is_postprocessor_spawn
    (session ToNumber_decimal (Some "100")
       (child_closes ++ (106, GlobCallback (inr [])) :: []) 200)
    = false.
Proof.
  split; [reflexivity|].
  destruct (no_artifact_fails_session ToNumber_decimal (Some "100")
              child_closes [] 106 200)
    as (_ & Hc & _ & _ & Hp & _); [reflexivity|].
  split; [exact Hc|exact Hp].
Defined.

Lemma stdout_captured_stderr_ignored_witness :
  profile (run artifact_found (application ToNumber_decimal (Some "100")))
    = Running /\
  crashed (run artifact_found (application ToNumber_decimal (Some "100")))
    = false /\
  chunk_captured ProfileStdout "AB"
    (run artifact_found (application ToNumber_decimal (Some "100"))) /\
  output (handle (Emit ProfileStderr "data" "AB")
            (run artifact_found (application ToNumber_decimal (Some "100"))))
    = output (run artifact_found (application ToNumber_decimal (Some "100"))).
Proof.
  split; [reflexivity|]. split; [reflexivity|].
  apply (stdout_captured_stderr_ignored ToNumber_decimal (Some "100")
           artifact_found "AB"); reflexivity.
Defined.

Lemma latest_is_most_recent_witness :
  candidates <> [] /\
  exists before c after,
    candidates = before ++ c :: after /\
    latest candidates = inr (path c) /\
    (forall e, In e before -> mtime (stat e) < mtime (stat c)) /\
    (forall e, In e after -> mtime (stat e) <= mtime (stat c)).
Proof.
  split; [discriminate|].
  apply (latest_is_most_recent candidates). discriminate.
Defined.

Lemma report_is_stdout_in_order_witness :
  chain (run artifact_found (application ToNumber_decimal (Some "100")))
    = PostProcessing /\
  crashed (run artifact_found (application ToNumber_decimal (Some "100")))
    = false /\
  chain (session ToNumber_decimal (Some "100")
           (artifact_found ++
            map chunk_event [(108, "AB"); (109, "CD"); (110, "EF")] ++
            [(111, Emit Profile "close" "")]) 200) = Done /\
  exists before after,
    acts (session ToNumber_decimal (Some "100")
            (artifact_found ++
             map chunk_event [(108, "AB"); (109, "CD"); (110, "EF")] ++
             [(111, Emit Profile "close" "")]) 200) =
      before ++
      report_block ""
        (join (stdout_chunks
                 (acts (run artifact_found
                          (application ToNumber_decimal (Some "100"))))
               ++ map snd [(108, "AB"); (109, "CD"); (110, "EF")])) ++
      after /\
    stdout_chunks before =
      stdout_chunks
        (acts (run artifact_found
                 (application ToNumber_decimal (Some "100")))) ++
      map snd [(108, "AB"); (109, "CD"); (110, "EF")] /\
    stdout_chunks after = [].
Proof.
  split; [reflexivity|]. split; [reflexivity|].
  apply (report_is_stdout_in_order ToNumber_decimal (Some "100")
           artifact_found [(108, "AB"); (109, "CD"); (110, "EF")] 111 "" 200);
    reflexivity.
Defined.

Lemma disabled_fast_path_witness :
  (@None string = None \/ @None string = Some "") /\
  trace (application ToNumber_decimal None) =
    [(0, Resolve); (0, Require "./server.js")] /\
  trace (session ToNumber_decimal None report_written 200) =
    [(0, Resolve); (0, Require "./server.js")] /\
  has is_spawn (session ToNumber_decimal None report_written 200) = false.
Proof.
  split; [now left|].
  apply (disabled_fast_path ToNumber_decimal None report_written 200).
  now left.
Defined.

Lemma kill_issued_once_at_deadline_witness :
  "100" <> "" /\ ToNumber_decimal "100" = Some 100 /\
  0 <= 100 <= TIMEOUT_MAX /\
  (crashed (session ToNumber_decimal (Some "100") child_closes 200) = false ->
   Z.max 1 100 <= 200 ->
   kills (trace (session ToNumber_decimal (Some "100") child_closes 200)) =
     [(Z.max 1 100, Kill "SIGINT")]).
Proof.
  split; [discriminate|]. split; [reflexivity|].
  split; [split; discriminate|].
  apply (kill_issued_once_at_deadline ToNumber_decimal "100" 100 child_closes
           200).
  - discriminate.
  - reflexivity.
  - split; discriminate.
Defined.

Lemma outer_promise_settled_at_most_once_witness :
  truthy (Some "100") = true /\
  has is_server_close
    (session_at ToNumber_decimal Healthy (Some "100") child_closes 200)
    = true /\
  count is_resolve
    (session_at ToNumber_decimal Healthy (Some "100") child_closes 200)
    = 1%nat /\
  outer (session_at ToNumber_decimal Healthy (Some "100") child_closes 200)
    = Fulfilled /\
  has is_service_load
    (session_at ToNumber_decimal Healthy (Some "100") child_closes 200)
    = true.
Proof.
  destruct (outer_promise_settled_at_most_once ToNumber_decimal Healthy
              (Some "100") child_closes 200) as (_ & _ & H3 & H4 & _).
  assert (Hc : has is_server_close
                 (session_at ToNumber_decimal Healthy (Some "100")
                    child_closes 200) = true) by (vm_compute; reflexivity).
  split; [reflexivity|]. split; [exact Hc|].
  pose proof (proj2 (H3 eq_refl eq_refl) Hc) as H1.
  split; [exact H1|]. exact (H4 H1).
Defined.

(** * Beyond the claims *)

(** ** Counting the steps of a session *)

Ltac open_counts :=
  unfold session_counts, session_inv, after_close, has, count, acts,
    trace_order, stdout_chunks.

Ltac settle_counts :=
  open_counts; step_script; trace_facts; use_hyps; crunch; use_hyps; crunch;
  rewrite ?app_nil_r;
  repeat split; try reflexivity; try assumption.

Lemma stat_calls_flat_map (f : action -> list string) (paths : list string) :
  (forall p, f (FsStat p) = []) -> flat_map f (map FsStat paths) = [].
Proof.
  intros Hf. induction paths as [|p paths IH]; simpl; [reflexivity|].
  now rewrite Hf, IH.
Qed.

Ltac stat_facts_flat :=
  rewrite ?stat_calls_acts;
  rewrite ?stat_calls_filter, ?stat_calls_flat_map by reflexivity.

Lemma session_counts_emit (em : emitter) (name arg : string) (s : state) :
  session_inv s -> session_counts s -> crashed s = false ->
  session_counts (handle (Emit em name arg) s).
Proof.
  intros Hinv Hcnt Hcr. unfold handle. rewrite Hcr.
  destruct s as [clk cr out re mt sv pf ls tm ch op tr].
  unfold session_counts, session_inv, after_close, has, count, acts,
    trace_order, stdout_chunks in Hinv, Hcnt.
  cbn in Hinv, Hcnt, Hcr.
  destruct Hinv as (Hmt & Hls & _ & _ & Hch). subst mt ls cr.
  destruct ch; decompose [and] Hch; clear Hch; subst;
    destruct em; try destruct pf; crunch; try discriminate;
    try (destruct (name_cases name)
           as [->|[->|[->|[->|(N1 & N2 & N3 & N4 & N5 & N6)]]]]);
    step_script; rewrite ?N1, ?N2, ?N3, ?N4, ?N5, ?N6; crunch;
    settle_counts.
Qed.

Lemma session_counts_glob (r : string + list string) (s : state) :
  session_inv s -> session_counts s -> crashed s = false ->
  session_counts (handle (GlobCallback r) s).
Proof.
  intros Hinv Hcnt Hcr. unfold handle. rewrite Hcr.
  destruct s as [clk cr out re mt sv pf ls tm ch op tr].
  unfold session_counts, session_inv, after_close, has, count, acts,
    trace_order, stdout_chunks in Hinv, Hcnt.
  cbn in Hinv, Hcnt, Hcr.
  destruct Hinv as (Hmt & Hls & _ & _ & Hch). subst mt ls cr.
  destruct ch; crunch; try (open_counts; crunch; tauto).
  decompose [and] Hch; clear Hch; subst.
  destruct r as [msg|paths]; unfold glob_callback.
  - settle_counts.
  - rewrite stat_calls. unfold await_stats. rewrite all_pending.
    destruct paths as [|p paths]; [unfold stats_ready; crunch; settle_counts|].
    open_counts; step_script; trace_facts; stat_facts_flat; use_hyps; crunch.
    rewrite ?stat_calls_filter, ?stat_calls_flat_map by reflexivity.
    rewrite ?app_nil_r. repeat split; reflexivity.
Qed.

Lemma session_counts_stat (i : nat) (r : string + Stats) (s : state) :
  session_inv s -> session_counts s -> crashed s = false ->
  session_counts (handle (StatCallback i r) s).
Proof.
  intros Hinv Hcnt Hcr. unfold handle. rewrite Hcr.
  destruct s as [clk cr out re mt sv pf ls tm ch op tr].
  unfold session_counts, session_inv, after_close, has, count, acts,
    trace_order, stdout_chunks in Hinv, Hcnt.
  cbn in Hinv, Hcnt, Hcr.
  destruct Hinv as (Hmt & Hls & _ & _ & Hch). subst mt ls cr.
  destruct ch; crunch; try (open_counts; crunch; tauto).
  decompose [and] Hch; clear Hch; subst.
  unfold stat_callback.
  destruct (nth_error rs i) as [[p [st|]]|];
    try (open_counts; crunch; tauto).
  destruct r as [msg|st]; [settle_counts|].
  unfold await_stats. destruct (all_fulfilled _) as [es|]; [|settle_counts].
  unfold stats_ready. destruct (latest es) as [e|q]; settle_counts.
Qed.

Lemma session_counts_handle (ev : event) (s : state) :
  session_inv s -> session_counts s -> session_counts (handle ev s).
Proof.
  intros Hinv Hcnt. destruct (crashed s) eqn:Hcr.
  - unfold handle. now rewrite Hcr.
  - destruct ev; auto using session_counts_emit, session_counts_glob,
      session_counts_stat.
Qed.

Lemma kills_filtered (P : action -> bool) (n : nat) :
  P (Kill "SIGINT") = false -> filter P (repeat (Kill "SIGINT") n) = [].
Proof. intros HP. induction n; simpl; [reflexivity|now rewrite HP]. Qed.

Lemma kills_flat_map (f : action -> list string) (n : nat) :
  f (Kill "SIGINT") = [] -> flat_map f (repeat (Kill "SIGINT") n) = [].
Proof. intros Hf. induction n; simpl; [reflexivity|now rewrite Hf]. Qed.

Lemma session_counts_advance (t : Z) (s : state) :
  session_counts s -> session_counts (advance t s).
Proof.
  destruct (advance_fields t s) as (_ & _ & _ & _ & E1 & _ & E2 & _).
  destruct (advance_acts t s) as [n Hn].
  unfold session_counts, count. rewrite E1, E2, Hn.
  rewrite !flat_map_app, !filter_app, !length_app.
  rewrite !kills_filtered, !kills_flat_map by reflexivity.
  cbn [List.length]. rewrite !app_nil_r, !Nat.add_0_r. auto.
Qed.

Lemma session_counts_run (evs : list (Z * event)) (s : state) :
  session_inv s -> session_counts s ->
  session_inv (run evs s) /\ session_counts (run evs s).
Proof.
  revert s. induction evs as [|te evs IH]; intros s Hinv Hcnt; simpl; auto.
  apply IH.
  - apply session_inv_handle, session_inv_advance, Hinv.
  - apply session_counts_handle;
      auto using session_inv_advance, session_counts_advance.
Qed.

Section Counting.
Variable ToNumber : string -> option Z.

Lemma session_counts_start (env : option string) :
  truthy env = true -> session_counts (application ToNumber env).
Proof.
  intros Hv. unfold application, executor. rewrite Hv.
  unfold setTimeout, outer_then, initial. settle_counts.
Qed.

Lemma session_counts_reached (env : option string) (evs : list (Z * event))
    (T : Z) :
  truthy env = true ->
  session_inv (session ToNumber env evs T) /\
  session_counts (session ToNumber env evs T).
Proof.
  intros Hv. unfold session, run_until.
  destruct (session_counts_run evs (application ToNumber env))
    as (Hinv & Hcnt);
    auto using session_inv_start, session_counts_start,
      session_inv_advance, session_counts_advance.
Qed.
End Counting.

(** ** The two children *)

Section Children.
Variable ToNumber : string -> option Z.

(** X1: whatever the run, the two pipes have written to the supervisor's
    standard output and standard error exactly the data chunks the profiled
    child has emitted on its standard output and standard error, each in
    arrival order. *)
Theorem pipes_write_what_child_emits (env : option string)
    (evs : list (Z * event)) (T : Z) :
  flat_map piped_stdout (acts (session ToNumber env evs T)) =
    flat_map (data_chunk ServerStdout) (acts (session ToNumber env evs T)) /\
  flat_map piped_stderr (acts (session ToNumber env evs T)) =
    flat_map (data_chunk ServerStderr) (acts (session ToNumber env evs T)).
Proof.
  destruct (truthy env) eqn:Hv.
  - destruct (session_counts_reached ToNumber env evs T Hv)
      as (_ & H1 & H2 & _).
    split; assumption.
  - destruct (disabled_run ToNumber env evs T Hv) as (_ & Htr & _).
    unfold session, acts. rewrite Htr. split; reflexivity.
Qed.

(** X2: while the profiled child runs, a chunk arriving on one of its
    streams is written to the supervisor's stream of the same kind in the
    turn it arrives in, and the turn does nothing else. *)
Theorem chunk_forwarded_at_once (env : option string)
    (evs : list (Z * event)) (c : string) :
  server (run evs (application ToNumber env)) = Running ->
  crashed (run evs (application ToNumber env)) = false ->
  acts (handle (Emit ServerStdout "data" c)
          (run evs (application ToNumber env))) =
    acts (run evs (application ToNumber env)) ++
    [Emitted ServerStdout "data" c; Stdout c] /\
  acts (handle (Emit ServerStderr "data" c)
          (run evs (application ToNumber env))) =
    acts (run evs (application ToNumber env)) ++
    [Emitted ServerStderr "data" c; Stderr c].
Proof.
  intros Hs Hcr.
  destruct (reached ToNumber env evs) as [(Hv & Hinv)|(_ & (Hn & _))];
    [|congruence].
  unfold handle. rewrite Hcr.
  destruct Hinv as (Hm & Hls & _ & _ & Hch).
  destruct (run evs (application ToNumber env))
    as [clk cr out re mt sv pf ls tm ch op tr].
  unfold acts, after_close in *. cbn in Hs, Hcr, Hm, Hls, Hch. subst.
  destruct ch; decompose [and] Hch; try discriminate; subst.
  unfold server_listeners. crunch. step_script.
  rewrite !map_app. cbn [map snd]. rewrite <- !app_assoc. split; reflexivity.
Qed.


(** X4: the wrapped service is never loaded twice: [require('./server.js')]
    runs at most once in a run, and exactly once when profiling is
    disabled. *)
Theorem service_loaded_at_most_once (env : option string)
    (evs : list (Z * event)) (T : Z) :
  (count is_service_load (session ToNumber env evs T) <= 1)%nat /\
  (truthy env = false ->
   count is_service_load (session ToNumber env evs T) = 1%nat).
Proof.
  destruct (truthy env) eqn:Hv.
  - destruct (session_counts_reached ToNumber env evs T Hv)
      as (_ & _ & _ & _ & _ & _ & H & _).
    rewrite H. split; [|discriminate]. destruct (chain _); lia.
  - destruct (disabled_run ToNumber env evs T Hv) as (_ & Htr & _).
    unfold count, acts, session. rewrite Htr. cbn. split; auto.
Qed.

(** X5: a session has one outcome: the warning of [.catch] is logged at most
    once, and a run never holds both a warning and a report. *)
Theorem warning_or_report_never_both (env : option string)
    (evs : list (Z * event)) (T : Z) :
  (count is_warn (session ToNumber env evs T) <= 1)%nat /\
  (has is_warn (session ToNumber env evs T) = true ->
   has is_report (session ToNumber env evs T) = false) /\
  (chain (session ToNumber env evs T) = Done ->
   has is_warn (session ToNumber env evs T) = false).
Proof.
  destruct (truthy env) eqn:Hv.
  - destruct (session_counts_reached ToNumber env evs T Hv)
      as (Hinv & _ & _ & _ & _ & _ & _ & H).
    destruct Hinv as (_ & _ & _ & _ & Hch).
    rewrite H. destruct (chain _); repeat split; try lia; try tauto;
      try discriminate; intros; try congruence;
      decompose [and] Hch; congruence.
  - destruct (disabled_run ToNumber env evs T Hv) as ((_ & _ & Hc & _) & Htr & _).
    unfold count, has, acts, session in *. rewrite Htr. cbn.
    repeat split; auto.
Qed.
End Children.

(** ** Failures *)

Lemma dead_deliver (s : state) (te : Z * event) :
  crashed s = true -> deliver s te = s.
Proof.
  intros Hcr. unfold deliver, handle, advance. now rewrite Hcr, Hcr.
Qed.

Lemma dead_run (evs : list (Z * event)) (s : state) :
  crashed s = true -> run evs s = s.
Proof.
  intros Hcr. induction evs as [|te evs IH]; simpl; [reflexivity|].
  now rewrite dead_deliver.
Qed.

Section Failures.
Variable ToNumber : string -> option Z.

(** A session that failed before the post-processor was spawned stays that
    way, whatever happens next. *)
Lemma failed_locating_session (env : option string)
    (evs post : list (Z * event)) (T : Z) (w : action) :
  truthy env = true ->
  failed_locating w (run evs (application ToNumber env)) ->
  chain (session ToNumber env (evs ++ post) T) = Failed /\
  crashed (session ToNumber env (evs ++ post) T) = false /\
  In w (acts (session ToNumber env (evs ++ post) T)) /\
  has is_postprocessor_spawn (session ToNumber env (evs ++ post) T) = false /\
  has is_report (session ToNumber env (evs ++ post) T) = false.
Proof.
  intros Hv Hf.
  assert (Hf' : failed_locating w (session ToNumber env (evs ++ post) T)).
  { unfold session, run_until, run. rewrite fold_left_app.
    apply failed_locating_advance, failed_locating_run, Hf. }
  pose proof (session_inv_reached ToNumber env (evs ++ post) T Hv) as HF.
  fold (session ToNumber env (evs ++ post) T) in HF.
  destruct Hf' as (Hc & Hcr & Hp & _ & _ & Hw).
  destruct HF as (_ & _ & _ & Hpf & Hch). rewrite Hp in Hpf.
  rewrite Hc in Hch. repeat split; tauto.
Qed.

(** X6: when glob itself fails after the profiled child has closed, the
    session ends in Failed with glob's error logged as a warning; the process
    stays alive, no report is written and no post-processor is ever
    spawned. *)
Theorem glob_error_fails_session (env : option string)
    (pre post : list (Z * event)) (t T : Z) (msg : string) :
  chain (run pre (application ToNumber env)) = Globbing ->
  chain (session ToNumber env
           ((pre ++ [(t, GlobCallback (inl msg))]) ++ post) T) = Failed /\
  crashed (session ToNumber env
             ((pre ++ [(t, GlobCallback (inl msg))]) ++ post) T) = false /\
  In (Warn "Error processing profile" (GlobError msg))
     (acts (session ToNumber env
              ((pre ++ [(t, GlobCallback (inl msg))]) ++ post) T)) /\
  has is_postprocessor_spawn
    (session ToNumber env ((pre ++ [(t, GlobCallback (inl msg))]) ++ post) T)
    = false /\
  has is_report
    (session ToNumber env ((pre ++ [(t, GlobCallback (inl msg))]) ++ post) T)
    = false.
Proof.
  intros Hg.
  destruct (reached ToNumber env pre) as [(Hv & Hinv)|(_ & (_ & _ & Hc & _))];
    [|congruence].
  apply failed_locating_session; [exact Hv|].
  unfold run. rewrite fold_left_app. simpl.
  fold (run pre (application ToNumber env)).
  destruct Hinv as (Hm & _ & _ & _ & Hch). rewrite Hg in Hch.
  destruct Hch as ((Hsv & _) & Hp & Hcr & _).
  unfold deliver. cbn [fst snd].
  destruct (advance_fields t (run pre (application ToNumber env)))
    as (E1 & _ & E2 & E3 & E4 & _ & E5 & _).
  destruct (advance t (run pre (application ToNumber env)))
    as [clk cr out re mt sv pf ls tm ch op tr].
  cbn in E1, E2, E3, E4, E5. subst cr mt sv pf ch.
  rewrite Hcr, Hm, Hsv, Hp, Hg. unfold failed_locating, handle, acts. cbn.
  repeat split. rewrite map_app. apply in_or_app. right. now left.
Qed.

(** X7: when one of the stat calls fails while others are pending or done,
    the session ends in Failed at once with that error logged as a warning;
    answers of the other stat calls that arrive later change nothing, no
    report is written and no post-processor is ever spawned. *)
Theorem stat_error_fails_session (env : option string)
    (pre post : list (Z * event)) (t T : Z)
    (rs : list (string * option Stats)) (i : nat) (p msg : string) :
  chain (run pre (application ToNumber env)) = Statting rs ->
  nth_error rs i = Some (p, None) ->
  chain (session ToNumber env
           ((pre ++ [(t, StatCallback i (inl msg))]) ++ post) T) = Failed /\
  crashed (session ToNumber env
             ((pre ++ [(t, StatCallback i (inl msg))]) ++ post) T) = false /\
  In (Warn "Error processing profile" (StatError msg))
     (acts (session ToNumber env
              ((pre ++ [(t, StatCallback i (inl msg))]) ++ post) T)) /\
  has is_postprocessor_spawn
    (session ToNumber env
       ((pre ++ [(t, StatCallback i (inl msg))]) ++ post) T) = false /\
  has is_report
    (session ToNumber env
       ((pre ++ [(t, StatCallback i (inl msg))]) ++ post) T) = false.
Proof.
  intros Hg Hi.
  destruct (reached ToNumber env pre) as [(Hv & Hinv)|(_ & (_ & _ & Hc & _))];
    [|congruence].
  apply failed_locating_session; [exact Hv|].
  unfold run. rewrite fold_left_app. simpl.
  fold (run pre (application ToNumber env)).
  destruct Hinv as (Hm & _ & _ & _ & Hch). rewrite Hg in Hch.
  destruct Hch as ((Hsv & _) & Hp & Hcr & _).
  unfold deliver. cbn [fst snd].
  destruct (advance_fields t (run pre (application ToNumber env)))
    as (E1 & _ & E2 & E3 & E4 & _ & E5 & _).
  destruct (advance t (run pre (application ToNumber env)))
    as [clk cr out re mt sv pf ls tm ch op tr].
  cbn in E1, E2, E3, E4, E5. subst cr mt sv pf ch.
  rewrite Hcr, Hm, Hsv, Hp, Hg.
  unfold failed_locating, handle, acts, turn, stat_callback. cbn.
  rewrite Hi. cbn.
  repeat split. rewrite map_app. apply in_or_app. right. now left.
Qed.

(** X8: nobody listens to the 'error' event of the profiled child (Node
    emits it when the child cannot be spawned or killed). If it arrives
    before the child has closed, the supervisor dies of the uncaught error and
    the wrapped service is never loaded, whatever happens afterwards. *)
Theorem child_error_kills_supervisor (env : option string)
    (pre post : list (Z * event)) (t T : Z) (arg : string) :
  server (run pre (application ToNumber env)) = Running ->
  crashed (run pre (application ToNumber env)) = false ->
  crashed (session ToNumber env
             ((pre ++ [(t, Emit Server "error" arg)]) ++ post) T) = true /\
  has is_uncaught
    (session ToNumber env ((pre ++ [(t, Emit Server "error" arg)]) ++ post) T)
    = true /\
  has is_service_load
    (session ToNumber env ((pre ++ [(t, Emit Server "error" arg)]) ++ post) T)
    = false.
Proof.
  intros Hs Hcr.
  destruct (reached ToNumber env pre) as [(Hv & Hinv)|(_ & (Hn & _))];
    [|congruence].
  pose proof (session_inv_advance t _ Hinv) as Hinv'.
  destruct (advance_fields t (run pre (application ToNumber env)))
    as (E1 & _ & _ & E3 & _).
  assert (Hd : crashed (deliver (run pre (application ToNumber env))
                          (t, Emit Server "error" arg)) = true /\
               has is_uncaught
                 (deliver (run pre (application ToNumber env))
                    (t, Emit Server "error" arg)) = true /\
               has is_service_load
                 (deliver (run pre (application ToNumber env))
                    (t, Emit Server "error" arg)) = false).
  { unfold deliver. cbn [fst snd]. rewrite Hs in E3. rewrite Hcr in E1.
    unfold handle. rewrite E1.
    destruct Hinv' as (Hm & Hls & _ & _ & Hch).
    destruct (advance t (run pre (application ToNumber env)))
      as [clk cr out re mt sv pf ls tm ch op tr].
    unfold has, acts, after_close in *. cbn in E1, E3, Hm, Hls, Hch. subst.
    destruct ch; decompose [and] Hch; try discriminate; subst.
    unfold server_listeners. crunch. step_script.
    rewrite !map_app, !existsb_app. cbn [map snd existsb].
    use_hyps. crunch. rewrite ?orb_false_r, ?orb_true_r.
    repeat split; reflexivity. }
  unfold session, run_until, run. rewrite !fold_left_app. cbn [fold_left].
  fold (run pre (application ToNumber env)).
  destruct Hd as (Hd1 & Hd2 & Hd3).
  fold (run post (deliver (run pre (application ToNumber env))
                    (t, Emit Server "error" arg))).
  rewrite dead_run by exact Hd1.
  unfold advance. rewrite Hd1. auto.
Qed.


End Failures.

(** ** The newest artifact *)

(** X10: an artifact strictly newer than every other candidate is the one
    picked, wherever glob lists it: leftovers of earlier sessions, being
    older, never shadow it. *)
Theorem newest_artifact_wins (before after : list entry) (e : entry) :
  (forall x, In x before -> mtime (stat x) < mtime (stat e)) ->
  (forall x, In x after -> mtime (stat x) < mtime (stat e)) ->
  latest (before ++ e :: after) = inr (path e).
Proof.
  intros Hb Ha.
  destruct (sort_head_first_max (before ++ e :: after))
    as (b' & c & a' & tl & Hl & Hs & Hb' & Ha').
  { destruct before; discriminate. }
  unfold latest. rewrite Hs. f_equal.
  assert (Hc : In c (before ++ e :: after)).
  { rewrite Hl. apply in_or_app. right. now left. }
  assert (He : mtime (stat e) <= mtime (stat c)).
  { assert (Hin : In e (b' ++ c :: a')).
    { rewrite <- Hl. apply in_or_app. right. now left. }
    apply in_app_or in Hin as [Hin|[<-|Hin]].
    - apply Hb' in Hin. lia.
    - lia.
    - now apply Ha'. }
  apply in_app_or in Hc as [Hc|[<-|Hc]].
  - apply Hb in Hc. lia.
  - reflexivity.
  - apply Ha in Hc. lia.
Qed.

(** ** Promise.all keeps call order *)

Lemma set_nth_length {A : Type} (i : nat) (x : A) (l : list A) :
  List.length (set_nth i x l) = List.length l.
Proof.
  revert i. induction l as [|y l IH]; intros [|i]; simpl; auto.
Qed.

Lemma nth_error_set_nth_same {A : Type} (i : nat) (x : A) (l : list A) :
  (i < List.length l)%nat -> nth_error (set_nth i x l) i = Some x.
Proof.
  revert i. induction l as [|y l IH]; intros [|i] Hi; simpl in *;
    try lia; auto.
  apply IH. lia.
Qed.

Lemma nth_error_set_nth_other {A : Type} (i j : nat) (x : A) (l : list A) :
  j <> i -> nth_error (set_nth i x l) j = nth_error l j.
Proof.
  revert i j. induction l as [|y l IH]; intros [|i] [|j] Hij; simpl;
    try congruence; auto.
Qed.

Lemma all_fulfilled_some (rs : list (string * option Stats))
    (es : list entry) :
  all_fulfilled rs = Some es ->
  List.length es = List.length rs /\
  forall j,
    nth_error rs j =
    option_map (fun e => (path e, Some (stat e))) (nth_error es j).
Proof.
  revert es. induction rs as [|[p [st|]] rs IH]; intros es H; simpl in H.
  - injection H as <-. split; [reflexivity|]. now intros [|j].
  - destruct (all_fulfilled rs) as [es'|]; [|discriminate].
    injection H as <-. destruct (IH es' eq_refl) as (Hl & Hn).
    split; [simpl; now rewrite Hl|]. intros [|j]; simpl; auto.
  - discriminate.
Qed.

Lemma all_fulfilled_none (rs : list (string * option Stats)) :
  all_fulfilled rs = None -> exists j p, nth_error rs j = Some (p, None).
Proof.
  induction rs as [|[p [st|]] rs IH]; intros H; simpl in H.
  - discriminate.
  - destruct (all_fulfilled rs) as [es'|]; [discriminate|].
    destruct (IH eq_refl) as (j & q & Hj). now exists (S j), q.
  - now exists 0%nat, p.
Qed.

Section PromiseAll.
Variables (paths : list string) (stats : list Stats).
Hypothesis stats_length : List.length stats = List.length paths.

Lemma answered_start :
  answered paths stats [] (map (fun p => (p, None)) paths).
Proof.
  split; [apply length_map|]. intros j Hj. split; [intros []|intros _].
  rewrite nth_error_map, (nth_error_nth' paths "" Hj). reflexivity.
Qed.

Lemma answered_step (D : list nat) (rs : list (string * option Stats))
    (i : nat) :
  answered paths stats D rs -> (i < List.length paths)%nat ->
  answered paths stats (i :: D)
    (set_nth i (nth i paths "", Some (nth i stats {| mtime := 0 |})) rs).
Proof.
  intros (Hl & Hn) Hi. split; [now rewrite set_nth_length|].
  intros j Hj. destruct (Nat.eq_dec j i) as [->|Hji].
  - split; [intros _|intros H; elim H; now left].
    apply nth_error_set_nth_same. now rewrite Hl.
  - rewrite nth_error_set_nth_other by exact Hji.
    destruct (Hn j Hj) as (H1 & H2). split.
    + intros [H|H]; [congruence|auto].
    + intros H. apply H2. intros H'. apply H. now right.
Qed.

Lemma answered_incomplete (D : list nat) (rs : list (string * option Stats))
    (j : nat) :
  answered paths stats D rs -> (j < List.length paths)%nat -> ~ In j D ->
  all_fulfilled rs = None.
Proof.
  intros (Hl & Hn) Hj HD. destruct (all_fulfilled rs) as [es|] eqn:Hall; auto.
  destruct (all_fulfilled_some rs es Hall) as (_ & He).
  destruct (Hn j Hj) as (_ & H2). specialize (He j). rewrite (H2 HD) in He.
  destruct (nth_error es j); discriminate.
Qed.

Lemma answered_complete (D : list nat) (rs : list (string * option Stats)) :
  answered paths stats D rs ->
  (forall j, (j < List.length paths)%nat -> In j D) ->
  all_fulfilled rs = Some (entries paths stats).
Proof.
  intros (Hl & Hn) HD. destruct (all_fulfilled rs) as [es|] eqn:Hall.
  - f_equal. destruct (all_fulfilled_some rs es Hall) as (Hes & He).
    apply nth_error_ext. intros j.
    destruct (Nat.lt_ge_cases j (List.length paths)) as [Hj|Hj].
    + destruct (Hn j Hj) as (H1 & _). specialize (He j).
      rewrite (H1 (HD j Hj)) in He.
      unfold entries. rewrite nth_error_map.
      assert (Hc : (j < List.length (combine paths stats))%nat).
      { rewrite length_combine. lia. }
      rewrite (nth_error_nth' _ ("", {| mtime := 0 |}) Hc).
      rewrite combine_nth by congruence. cbn.
      destruct (nth_error es j) as [[p st]|]; [|discriminate].
      cbn in He. congruence.
    + transitivity (@None entry); [|symmetry]; apply nth_error_None.
      * lia.
      * unfold entries. rewrite length_map, length_combine. lia.
  - destruct (all_fulfilled_none rs Hall) as (j & p & Hj).
    assert (Hlt : (j < List.length paths)%nat).
    { rewrite <- Hl. apply nth_error_Some. congruence. }
    destruct (Hn j Hlt) as (H1 & _). rewrite (H1 (HD j Hlt)) in Hj.
    discriminate.
Qed.
End PromiseAll.

Lemma stat_turn_pending (s : state) (rs : list (string * option Stats))
    (i : nat) (p : string) (st : Stats) :
  crashed s = false -> microtasks s = [] -> chain s = Statting rs ->
  nth_error rs i = Some (p, None) ->
  all_fulfilled (set_nth i (p, Some st) rs) = None ->
  handle (StatCallback i (inr st)) s =
    set_chain (Statting (set_nth i (p, Some st) rs)) s.
Proof.
  intros Hcr Hm Hc Hi Hall.
  unfold handle, turn, stat_callback, await_stats.
  rewrite Hcr, Hc, Hi, Hall. apply drain_idle. exact Hm.
Qed.

Lemma stat_turn_last (s : state) (rs : list (string * option Stats))
    (i : nat) (p q : string) (st : Stats) (es : list entry) :
  crashed s = false -> microtasks s = [] -> chain s = Statting rs ->
  nth_error rs i = Some (p, None) ->
  all_fulfilled (set_nth i (p, Some st) rs) = Some es ->
  latest es = inr q ->
  handle (StatCallback i (inr st)) s = process_profile q s.
Proof.
  intros Hcr Hm Hc Hi Hall Hq.
  unfold handle, turn, stat_callback, await_stats, stats_ready.
  rewrite Hcr, Hc, Hi, Hall, Hq. apply drain_idle. exact Hm.
Qed.

(** A set of distinct call numbers that is not yet all of them leaves one
    out. *)
Lemma some_call_pending (n : nat) (D : list nat) :
  NoDup D -> (List.length D < n)%nat ->
  exists j, (j < n)%nat /\ ~ In j D.
Proof.
  intros Hnd Hlen.
  destruct (Forall_Exists_dec (fun j => In j D)
              (fun j => in_dec Nat.eq_dec j D) (seq 0 n)) as [Hall|Hex].
  - exfalso. rewrite Forall_forall in Hall.
    pose proof (NoDup_incl_length (seq_NoDup n 0) Hall) as Hle.
    rewrite length_seq in Hle. lia.
  - apply Exists_exists in Hex as (j & Hj & HjD).
    exists j. split; [|exact HjD]. apply in_seq in Hj. lia.
Qed.

Section StatOrder.
Variables (paths : list string) (stats : list Stats).
Hypothesis stats_length : List.length stats = List.length paths.

(** While answers are missing, the chain waits, whatever the order of the
    answers so far. *)
Lemma stats_pending_run (init : list (Z * nat)) :
  forall (D : list nat) (s : state) (rs : list (string * option Stats)),
  session_inv s -> crashed s = false -> chain s = Statting rs ->
  answered paths stats D rs ->
  NoDup (rev (map snd init) ++ D) ->
  (forall i, In i (map snd init) -> (i < List.length paths)%nat) ->
  (List.length init + List.length D < List.length paths)%nat ->
  exists rs',
    session_inv (run (map (stat_answer stats) init) s) /\
    crashed (run (map (stat_answer stats) init) s) = false /\
    chain (run (map (stat_answer stats) init) s) = Statting rs' /\
    answered paths stats (rev (map snd init) ++ D) rs'.
Proof.
  induction init as [|[t i] init IH]; intros D s rs Hinv Hcr Hc Ha Hnd Hlt Hlen.
  - exists rs. simpl. auto.
  - cbn [map snd rev] in *. rewrite <- app_assoc in *. cbn [app] in *.
    change (run (map (stat_answer stats) ((t, i) :: init)) s)
      with (run (map (stat_answer stats) init)
              (handle (StatCallback i (inr (nth i stats {| mtime := 0 |})))
                 (advance t s))).
    assert (Hi : (i < List.length paths)%nat) by (apply Hlt; now left).
    assert (HiD : ~ In i D).
    { apply NoDup_remove_2 in Hnd. intros H. apply Hnd.
      apply in_or_app. now right. }
    assert (HndD : NoDup (i :: D)).
    { apply NoDup_app_remove_l in Hnd. exact Hnd. }
    destruct (some_call_pending (List.length paths) (i :: D) HndD)
      as (j & Hj & HjD); [simpl in *; lia|].
    pose proof (session_inv_advance t s Hinv) as Hinv1.
    destruct (advance_fields t s) as (E1 & _ & E2 & _ & _ & _ & E3 & _).
    destruct Ha as (Hl & Hn). destruct (Hn i Hi) as (_ & Hpend).
    pose proof (answered_step paths stats D rs i (conj Hl Hn) Hi) as Ha'.
    pose proof (answered_incomplete paths stats _ _ j Ha' Hj HjD) as Hall.
    pose proof (stat_turn_pending (advance t s) rs i (nth i paths "")
                  (nth i stats {| mtime := 0 |})) as Hturn.
    rewrite E1, E3 in Hturn.
    destruct Hinv1 as (Hm1 & Hrest).
    specialize (Hturn Hcr Hm1 Hc (Hpend HiD) Hall).
    assert (H1 : session_inv
                   (handle
                      (StatCallback i (inr (nth i stats {| mtime := 0 |})))
                      (advance t s))).
    { apply session_inv_handle. exact (conj Hm1 Hrest). }
    assert (H2 : crashed
                   (handle
                      (StatCallback i (inr (nth i stats {| mtime := 0 |})))
                      (advance t s)) = false).
    { rewrite Hturn. cbn. congruence. }
    assert (H3 : chain
                   (handle
                      (StatCallback i (inr (nth i stats {| mtime := 0 |})))
                      (advance t s)) =
                 Statting
                   (set_nth i
                      (nth i paths "", Some (nth i stats {| mtime := 0 |}))
                      rs)).
    { rewrite Hturn. reflexivity. }
    apply (IH (i :: D) _ _ H1 H2 H3 Ha' Hnd).
    + intros k Hk. apply Hlt. now right.
    + simpl in *. lia.
Qed.
End StatOrder.

Lemma glob_turn_success (s : state) (paths : list string) :
  crashed s = false -> microtasks s = [] -> chain s = Globbing ->
  paths <> [] ->
  handle (GlobCallback (inr paths)) s =
    set_chain (Statting (map (fun p => (p, None)) paths))
      (set_trace (trace s ++ map (fun p => (clock s, FsStat p)) paths) s).
Proof.
  intros Hcr Hm Hc Hne.
  unfold handle, turn, glob_callback, await_stats.
  rewrite Hcr, Hc, stat_calls, all_pending.
  destruct paths as [|p paths]; [congruence|].
  apply drain_idle. exact Hm.
Qed.

Lemma run_app (evs evs' : list (Z * event)) (s : state) :
  run (evs ++ evs') s = run evs' (run evs s).
Proof. apply fold_left_app. Qed.

Lemma latest_of_some (es : list entry) :
  es <> [] -> exists q, latest es = inr q.
Proof.
  intros Hne.
  destruct (sort_head_first_max es Hne) as (_ & c & _ & tl & _ & Hs & _).
  exists (path c). unfold latest. now rewrite Hs.
Qed.

Section Arrival.
Variable ToNumber : string -> option Z.

(** X11: once glob has listed the candidates, stat is called for each of
    them in listing order, and whatever the order in which the answers
    arrive, the chain waits for the last one and then spawns the
    post-processor, once, on the path picked from the candidates paired with
    their stats in listing order. *)
Theorem stat_arrival_order_is_irrelevant (env : option string)
    (pre : list (Z * event)) (tg : Z) (paths : list string)
    (stats : list Stats) (answers : list (Z * nat)) (T : Z) :
  chain (run pre (application ToNumber env)) = Globbing ->
  paths <> [] ->
  List.length stats = List.length paths ->
  Permutation (map snd answers) (seq 0 (List.length paths)) ->
  exists q,
    latest (entries paths stats) = inr q /\
    chain (session ToNumber env
             ((pre ++ [(tg, GlobCallback (inr paths))]) ++
              map (stat_answer stats) answers) T) = PostProcessing /\
    In (Spawn "node" ["--prof-process"; q])
       (acts (session ToNumber env
                ((pre ++ [(tg, GlobCallback (inr paths))]) ++
                 map (stat_answer stats) answers) T)) /\
    count is_postprocessor_spawn
      (session ToNumber env
         ((pre ++ [(tg, GlobCallback (inr paths))]) ++
          map (stat_answer stats) answers) T) = 1%nat /\
    exists before after,
      acts (session ToNumber env
              ((pre ++ [(tg, GlobCallback (inr paths))]) ++
               map (stat_answer stats) answers) T) =
        before ++ map FsStat paths ++ after.
Proof.
  intros Hg Hne Hlen Hperm.
  destruct (reached ToNumber env pre) as [(Hv & Hinv)|(_ & (_ & _ & Hc & _))];
    [|congruence].
  (* the entries are not empty *)
  destruct (latest_of_some (entries paths stats)) as [q Hq].
  { unfold entries. destruct paths, stats; simpl in *; congruence. }
  set (n := List.length paths) in *.
  assert (Hn : (0 < n)%nat).
  { subst n. destruct paths; [congruence|simpl; lia]. }
  exists q. split; [exact Hq|].
  (* the turn of glob's callback *)
  set (s0 := run pre (application ToNumber env)) in *.
  pose proof (session_inv_advance tg s0 Hinv) as Hinv0.
  destruct (advance_fields tg s0) as (E1 & _ & E2 & _ & _ & _ & E3 & _).
  assert (Hcr0 : crashed s0 = false).
  { destruct Hinv as (_ & _ & _ & _ & Hch). rewrite Hg in Hch. tauto. }
  assert (Hm0 : microtasks (advance tg s0) = []) by (now destruct Hinv0).
  pose proof (glob_turn_success (advance tg s0) paths) as Hturn.
  rewrite E1, E3 in Hturn. specialize (Hturn Hcr0 Hm0 Hg Hne).
  set (s1 := handle (GlobCallback (inr paths)) (advance tg s0)) in *.
  assert (Hinv1 : session_inv s1) by now apply session_inv_handle.
  assert (Hcr1 : crashed s1 = false) by (rewrite Hturn; cbn; congruence).
  assert (Hc1 : chain s1 = Statting (map (fun p => (p, None)) paths))
    by now rewrite Hturn.
  assert (Ha1 : acts s1 = acts (advance tg s0) ++ map FsStat paths).
  { rewrite Hturn. unfold acts. cbn. now rewrite map_app, stat_calls_acts. }
  (* the answers: all but the last, then the last *)
  assert (Hal : List.length answers = n).
  { rewrite <- (length_map snd answers), (Permutation_length Hperm).
    apply length_seq. }
  destruct (exists_last (l := answers)) as (init & [tl il] & Hans).
  { intros ->. simpl in Hal. lia. }
  assert (Hnd : NoDup (map snd answers)).
  { apply (Permutation_NoDup (Permutation_sym Hperm)), seq_NoDup. }
  assert (Hlt : forall i, In i (map snd answers) -> (i < n)%nat).
  { intros i Hi. apply (Permutation_in _ Hperm) in Hi.
    apply in_seq in Hi. lia. }
  rewrite Hans in Hal, Hnd, Hlt. rewrite map_app in Hnd, Hlt.
  rewrite length_app in Hal. cbn in Hal, Hnd, Hlt.
  destruct (stats_pending_run paths stats Hlen init [] s1 _ Hinv1 Hcr1 Hc1
              (answered_start paths stats))
    as (rs' & Hinv2 & Hcr2 & Hc2 & Ha2).
  { rewrite app_nil_r. apply NoDup_rev. now apply NoDup_app_remove_r in Hnd. }
  { intros i Hi. apply Hlt, in_or_app. now left. }
  { simpl. lia. }
  rewrite app_nil_r in Ha2.
  set (s2 := run (map (stat_answer stats) init) s1) in *.
  pose proof (session_inv_advance tl s2 Hinv2) as Hinv3.
  destruct (advance_fields tl s2) as (F1 & _ & F2 & _ & _ & _ & F3 & _).
  assert (Hil : (il < n)%nat).
  { apply Hlt, in_or_app. right. now left. }
  assert (HilD : ~ In il (rev (map snd init))).
  { rewrite <- in_rev. intros H.
    apply NoDup_remove_2 in Hnd. apply Hnd. rewrite app_nil_r. exact H. }
  pose proof (answered_step paths stats _ _ il Ha2 Hil) as Ha3.
  assert (Hfull : forall j, (j < n)%nat -> In j (il :: rev (map snd init))).
  { intros j Hj.
    apply (NoDup_length_incl (l := il :: rev (map snd init))
             (l' := seq 0 n)).
    - constructor; [exact HilD|]. apply NoDup_rev.
      now apply NoDup_app_remove_r in Hnd.
    - rewrite length_seq. simpl. rewrite length_rev, length_map. lia.
    - intros k [<-|Hk]; apply in_seq; [lia|].
      rewrite <- in_rev in Hk. assert (k < n)%nat; [|lia].
      apply Hlt, in_or_app. now left.
    - apply in_seq. lia. }
  pose proof (answered_complete paths stats Hlen _ _ Ha3 Hfull) as Hall.
  destruct Ha2 as (Hl2 & Hn2). destruct (Hn2 il Hil) as (_ & Hpend).
  pose proof (stat_turn_last (advance tl s2) rs' il (nth il paths "") q
                (nth il stats {| mtime := 0 |}) (entries paths stats))
    as Hlast.
  rewrite F1, F3 in Hlast.
  assert (Hm3 : microtasks (advance tl s2) = []) by (now destruct Hinv3).
  specialize (Hlast Hcr2 Hm3 Hc2 (Hpend HilD) Hall Hq).
  (* assemble the run *)
  assert (HS : session ToNumber env
                 ((pre ++ [(tg, GlobCallback (inr paths))]) ++
                  map (stat_answer stats) answers) T =
               advance T (process_profile q (advance tl s2))).
  { unfold session, run_until. rewrite Hans, map_app, !run_app.
    fold s0. cbn [map].
    change (run [(tg, GlobCallback (inr paths))] s0) with s1.
    fold s2.
    change (run [stat_answer stats (tl, il)] s2)
      with (handle (StatCallback il (inr (nth il stats {| mtime := 0 |})))
              (advance tl s2)).
    now rewrite Hlast. }
  destruct (session_counts_reached ToNumber env
              ((pre ++ [(tg, GlobCallback (inr paths))]) ++
               map (stat_answer stats) answers) T Hv)
    as (HinvS & _ & _ & _ & Hcount & _).
  rewrite HS in *.
  destruct (advance_fields T (process_profile q (advance tl s2)))
    as (_ & _ & _ & _ & G1 & _ & G2 & _).
  destruct (advance_acts T (process_profile q (advance tl s2))) as [k Hk].
  destruct (advance_acts tl s2) as [k2 Hk2].
  destruct (run_acts (map (stat_answer stats) init) s1) as [new Hnew].
  fold s2 in Hnew.
  assert (Hacts : acts (process_profile q (advance tl s2)) =
                  acts (advance tl s2) ++
                  [Log ["Processing profile..."; q];
                   Spawn "node" ["--prof-process"; q]]).
  { unfold acts, process_profile, on. cbn.
    rewrite <- app_assoc, map_app. reflexivity. }
  split; [now rewrite G2|]. split.
  - rewrite Hk, Hacts. apply in_or_app. left. apply in_or_app. right.
    right. now left.
  - split.
    + rewrite Hcount, G1. reflexivity.
    + exists (acts (advance tg s0)).
      eexists. rewrite Hk, Hacts, Hk2, Hnew, Ha1, <- !app_assoc. reflexivity.
Qed.
End Arrival.

(** ** The hello route *)

Lemma append_assoc' (a b c : string) :
  ((a ++ b) ++ c = a ++ (b ++ c))%string.
Proof. induction a as [|x a IH]; simpl; [reflexivity|now rewrite IH]. Qed.



Section HelloFacts.
Variable createHmac : string -> string -> string -> string.
Variable Number_toString : Q -> string.

Lemma hash_loop_let (secret : string) (n : nat) (h : string) :
  hash_loop createHmac Let secret n h =
  inr (h ++ join (repeat (createHmac "sha256" secret "I love cupcakes") n))%string.
Proof.
  revert h. induction n as [|n IH]; intros h.
  - cbn [hash_loop repeat]. change (join []) with "". f_equal.
    induction h as [|x h IHh]; simpl; congruence.
  - cbn [hash_loop add_assign]. rewrite IH, append_assoc'. reflexivity.
Qed.


(** X13: when the request has no query, or the query has no [hello], or
    [hello] is falsy (the empty string, for one), the GET handler greets
    the world. *)
Theorem hello_get_default_greeting (now : Z) (req : request) :
  params req = None \/
  (exists o, params req = Some o /\
     (property "hello" o = None \/
      exists v, property "hello" o = Some v /\ ToBoolean v = false)) ->
  exists h,
    snd (hello_get createHmac Number_toString now req) =
      Replied {| msg := "Hello World"; hash := h |}.
Proof.
  intros H. eexists. unfold hello_get, hello_handler.
  rewrite hash_loop_let. unfold world_of.
  destruct H as [->|(o & -> & [->|(v & -> & ->)])]; reflexivity.
Qed.

(** X14: when [hello] is a non-empty string, the GET handler greets it by
    name. *)
Theorem hello_get_echoes_name (now : Z) (req : request)
    (o : list (string * jsvalue)) (w : string) :
  params req = Some o -> property "hello" o = Some (JStr w) -> w <> "" ->
  exists h,
    snd (hello_get createHmac Number_toString now req) =
      Replied {| msg := ("Hello " ++ w)%string; hash := h |}.
Proof.
  intros Hp Hh Hw. eexists. unfold hello_get, hello_handler.
  rewrite hash_loop_let. unfold world_of. rewrite Hp, Hh. cbn [ToBoolean].
  apply String.eqb_neq in Hw. rewrite Hw. reflexivity.
Qed.

(** X15: the POST handler declares [hash] with [const] and then assigns to
    it: whatever the request, it logs the body and the first round of the
    loop throws a TypeError, so the handler never reaches [res.json] and
    never sends its reply. What becomes of the thrown error is the
    framework's business, not the handler's. *)
Theorem hello_post_always_throws (now : Z) (req : request) :
  hello_post createHmac Number_toString now req =
    ({| logged_at := now;
        label := "In hello route POST / req.body=";
        shown := params req |},
     Threw (TypeError "Assignment to constant variable.")) /\
  forall r, snd (hello_post createHmac Number_toString now req) <> Replied r.
Proof.
  split; [reflexivity|]. intros r H. discriminate H.
Qed.
End HelloFacts.

(** ** The extra theorems at work *)

Example child_output_on_supervisor_streams :
  flat_map piped_stdout
    (acts (session ToNumber_decimal (Some "100") child_talks 200)) =
    ["listening"; "GET /hello"] /\
  flat_map piped_stderr
    (acts (session ToNumber_decimal (Some "100") child_talks 200)) =
    ["deprecated"].
Proof. split; reflexivity. Qed.

Example newest_among_leftovers :
  latest with_leftovers = inr "isolate-0x3-v8.log".
Proof. reflexivity. Qed.

Lemma chunk_forwarded_at_once_witness :
  server (run [] (application ToNumber_decimal (Some "100"))) = Running /\
  crashed (run [] (application ToNumber_decimal (Some "100"))) = false /\
  acts (handle (Emit ServerStdout "data" "listening")
          (run [] (application ToNumber_decimal (Some "100")))) =
    acts (run [] (application ToNumber_decimal (Some "100"))) ++
    [Emitted ServerStdout "data" "listening"; Stdout "listening"] /\
  acts (handle (Emit ServerStderr "data" "listening")
          (run [] (application ToNumber_decimal (Some "100")))) =
    acts (run [] (application ToNumber_decimal (Some "100"))) ++
    [Emitted ServerStderr "data" "listening"; Stderr "listening"].
Proof.
  split; [reflexivity|]. split; [reflexivity|].
  apply (chunk_forwarded_at_once ToNumber_decimal (Some "100") [] "listening");
    reflexivity.
Defined.


Lemma glob_error_fails_session_witness :
  chain (run child_closes (application ToNumber_decimal (Some "100")))
    = Globbing /\
  chain (session ToNumber_decimal (Some "100")
           ((child_closes ++ [(106, GlobCallback (inl "EMFILE"))]) ++ [])
           200) = Failed /\
  In (Warn "Error processing profile" (GlobError "EMFILE"))
     (acts (session ToNumber_decimal (Some "100")
              ((child_closes ++ [(106, GlobCallback (inl "EMFILE"))]) ++ [])
              200)).
Proof.
  split; [reflexivity|].
  destruct (glob_error_fails_session ToNumber_decimal (Some "100")
              child_closes [] 106 200 "EMFILE" eq_refl)
    as (H1 & _ & H2 & _).
  split; [exact H1|exact H2].
Defined.

Lemma stat_error_fails_session_witness :
  chain (run (child_closes ++ [(106, GlobCallback (inr ["a"; "b"]))])
           (application ToNumber_decimal (Some "100")))
    = Statting [("a", None); ("b", None)] /\
  nth_error [("a", @None Stats); ("b", None)] 1 = Some ("b", None) /\
  chain (session ToNumber_decimal (Some "100")
           (((child_closes ++ [(106, GlobCallback (inr ["a"; "b"]))]) ++
             [(107, StatCallback 1 (inl "EACCES"))]) ++
            [(108, StatCallback 0 (inr {| mtime := 1 |}))]) 200) = Failed /\
  has is_postprocessor_spawn
    (session ToNumber_decimal (Some "100")
       (((child_closes ++ [(106, GlobCallback (inr ["a"; "b"]))]) ++
         [(107, StatCallback 1 (inl "EACCES"))]) ++
        [(108, StatCallback 0 (inr {| mtime := 1 |}))]) 200) = false.
Proof.
  split; [reflexivity|]. split; [reflexivity|].
  destruct (stat_error_fails_session ToNumber_decimal (Some "100")
              (child_closes ++ [(106, GlobCallback (inr ["a"; "b"]))])
              [(108, StatCallback 0 (inr {| mtime := 1 |}))] 107 200
              [("a", None); ("b", None)] 1 "b" "EACCES" eq_refl eq_refl)
    as (H1 & _ & _ & H2 & _).
  split; [exact H1|exact H2].
Defined.

Lemma child_error_kills_supervisor_witness :
  server (run [] (application ToNumber_decimal (Some "100"))) = Running /\
  crashed (run [] (application ToNumber_decimal (Some "100"))) = false /\
  crashed (session ToNumber_decimal (Some "100")
             (([] ++ [(1, Emit Server "error" "spawn node ENOENT")]) ++
              child_closes) 200) = true /\
  has is_service_load
    (session ToNumber_decimal (Some "100")
       (([] ++ [(1, Emit Server "error" "spawn node ENOENT")]) ++
        child_closes) 200) = false.
Proof.
  split; [reflexivity|]. split; [reflexivity|].
  destruct (child_error_kills_supervisor ToNumber_decimal (Some "100") []
              child_closes 1 200 "spawn node ENOENT" eq_refl eq_refl)
    as (H1 & _ & H2).
  split; [exact H1|exact H2].
Defined.


Lemma newest_artifact_wins_witness :
  latest
    ([{| path := "isolate-0x1-v8.log"; stat := {| mtime := 100 |} |}] ++
     {| path := "isolate-0x3-v8.log"; stat := {| mtime := 900 |} |} ::
     [{| path := "isolate-0x2-v8.log"; stat := {| mtime := 500 |} |}]) =
  inr "isolate-0x3-v8.log".
Proof.
  apply (newest_artifact_wins
           [{| path := "isolate-0x1-v8.log"; stat := {| mtime := 100 |} |}]
           [{| path := "isolate-0x2-v8.log"; stat := {| mtime := 500 |} |}]
           {| path := "isolate-0x3-v8.log"; stat := {| mtime := 900 |} |}).
  - intros x [<-|[]]. reflexivity.
  - intros x [<-|[]]. reflexivity.
Defined.

Lemma stat_arrival_order_is_irrelevant_witness :
  chain (run child_closes (application ToNumber_decimal (Some "100")))
    = Globbing /\
  Permutation (map snd [(107, 2%nat); (108, 0%nat); (109, 1%nat)])
    (seq 0 (List.length ["a"; "b"; "c"])) /\
  exists q,
    latest
      (entries ["a"; "b"; "c"]
         [{| mtime := 10 |}; {| mtime := 30 |}; {| mtime := 20 |}]) = inr q /\
    chain (session ToNumber_decimal (Some "100")
             ((child_closes ++ [(106, GlobCallback (inr ["a"; "b"; "c"]))]) ++
              map (stat_answer
                     [{| mtime := 10 |}; {| mtime := 30 |}; {| mtime := 20 |}])
                [(107, 2%nat); (108, 0%nat); (109, 1%nat)]) 200)
      = PostProcessing /\
    In (Spawn "node" ["--prof-process"; q])
       (acts (session ToNumber_decimal (Some "100")
                ((child_closes ++
                  [(106, GlobCallback (inr ["a"; "b"; "c"]))]) ++
                 map (stat_answer
                        [{| mtime := 10 |}; {| mtime := 30 |};
                         {| mtime := 20 |}])
                   [(107, 2%nat); (108, 0%nat); (109, 1%nat)]) 200)).
Proof.
  assert (Hp : Permutation
                 (map snd [(107, 2%nat); (108, 0%nat); (109, 1%nat)])
                 (seq 0 (List.length ["a"; "b"; "c"]))).
  { apply perm_trans with [0; 2; 1]%nat;
      [apply perm_swap|apply perm_skip, perm_swap]. }
  split; [reflexivity|]. split; [exact Hp|].
  destruct (stat_arrival_order_is_irrelevant ToNumber_decimal (Some "100")
              child_closes 106 ["a"; "b"; "c"]
              [{| mtime := 10 |}; {| mtime := 30 |}; {| mtime := 20 |}]
              [(107, 2%nat); (108, 0%nat); (109, 1%nat)] 200
              eq_refl ltac:(discriminate) eq_refl Hp)
    as (q & H1 & H2 & H3 & _).
  exists q. split; [exact H1|]. split; [exact H2|exact H3].
Defined.

Example late_answers_same_choice :
  In (Spawn "node" ["--prof-process"; "b"])
     (acts (session ToNumber_decimal (Some "100")
              ((child_closes ++ [(106, GlobCallback (inr ["a"; "b"; "c"]))]) ++
               map (stat_answer
                      [{| mtime := 10 |}; {| mtime := 30 |}; {| mtime := 20 |}])
                 [(107, 2%nat); (108, 0%nat); (109, 1%nat)]) 200)).
Proof. vm_compute. repeat ((left; reflexivity) || right). Qed.

Lemma hello_get_default_greeting_witness :
  (params {| params := Some [("hello", JStr "")] |} = None \/
   (exists o, params {| params := Some [("hello", JStr "")] |} = Some o /\
      (property "hello" o = None \/
       exists v, property "hello" o = Some v /\ ToBoolean v = false))) /\
  exists h,
    snd (hello_get zero_digest no_numbers 0
           {| params := Some [("hello", JStr "")] |})
    = Replied {| msg := "Hello World"; hash := h |}.
Proof.
  assert (H : params {| params := Some [("hello", JStr "")] |} = None \/
              (exists o,
                 params {| params := Some [("hello", JStr "")] |} = Some o /\
                 (property "hello" o = None \/
                  exists v, property "hello" o = Some v /\
                            ToBoolean v = false))).
  { right. exists [("hello", JStr "")]. split; [reflexivity|].
    right. exists (JStr ""). split; reflexivity. }
  split; [exact H|].
  exact (hello_get_default_greeting zero_digest no_numbers 0 _ H).
Defined.

Lemma hello_get_echoes_name_witness :
  exists h,
    snd (hello_get zero_digest no_numbers 0
           {| params := Some [("hello", JStr "world")] |})
    = Replied {| msg := "Hello world"; hash := h |}.
Proof.
  apply (hello_get_echoes_name zero_digest no_numbers 0
           {| params := Some [("hello", JStr "world")] |}
           [("hello", JStr "world")] "world").
  - reflexivity.
  - reflexivity.
  - discriminate.
Defined.


(** An array throws as soon as one of its elements does, and joins them
    otherwise; an object without a [toString] of its own is printed the
    usual way. *)
Example ToString_samples :
  ToString no_numbers
    (JArr [JStr "a"; JNull; JArr [JStr "b"; JStr "c"]; JObj [("k", JNull)]]) =
    inr "a,,b,c,[object Object]" /\
  ToString no_numbers (JArr [JStr "a"; JObj [("toString", JStr "x")]]) =
    inl (TypeError "Cannot convert object to primitive value") /\
  ToString no_numbers (JObj [("valueOf", JStr "x")]) = inr "[object Object]".
Proof. repeat split. Qed.
